(** * Jet-image codec of [CNNTopTaggingPreprocessing.ipynb]

    Shallow embedding of the notebook's numerical pipeline

      get_df_rel  ->  get_img_array  ->  transform / reverse_transform

    together with the chunked driver [preprocess].

    NumPy computes on IEEE binary64 arrays.  Two element models are used:

    - Rocq's primitive [float], the real binary64 with rounding, overflow,
      underflow and signed zeros.  The functions of the C library
      ([np.log], [np.exp], [np.arcsinh], [np.arcsin]) are parameters of
      the embedding.  Every property that depends on the value of a
      finite computation is stated and proved on this model (Part III).
    - [f64], an idealised binary64: the special values NaN, +inf and -inf
      behave as IEEE prescribes, finite values are real numbers and finite
      arithmetic is exact.  It is used for properties in which only exact
      values, special values, shapes, rows and labels take part, and for
      inputs at which the code is to be evaluated.

    The rasteriser only adds and compares; it is embedded once over an
    interface of scalars and instantiated at both models.  *)

From Stdlib Require Import Floats.PrimFloat.
From Stdlib Require Uint63.
From Stdlib Require Floats.SpecFloat Floats.FloatOps Floats.FloatAxioms.
From Stdlib Require Import Reals Lra Lia ZArith List Permutation Bool.
Import ListNotations.

Local Open Scope R_scope.

(* ================================================================== *)
(** * Part I: the embedding                                            *)
(* ================================================================== *)

(** ** Idealised binary64 values *)

Inductive f64 : Type :=
| NaN
| PInf
| NInf
| Fin (r : R).

Definition Rsign (r : R) : comparison :=
  if Rlt_dec 0 r then Gt else if Rlt_dec r 0 then Lt else Eq.

Definition fneg (a : f64) : f64 :=
  match a with
  | NaN => NaN
  | PInf => NInf
  | NInf => PInf
  | Fin r => Fin (- r)
  end.

Definition fadd (a b : f64) : f64 :=
  match a, b with
  | NaN, _ | _, NaN => NaN
  | PInf, NInf | NInf, PInf => NaN
  | PInf, _ | _, PInf => PInf
  | NInf, _ | _, NInf => NInf
  | Fin x, Fin y => Fin (x + y)
  end.

Definition fsub (a b : f64) : f64 := fadd a (fneg b).

(** [inf * 0] is NaN, otherwise the sign rule. *)
Definition finf_scaled (s : comparison) : f64 :=
  match s with Gt => PInf | Lt => NInf | Eq => NaN end.

Definition fsign (a : f64) : comparison :=
  match a with
  | NaN => Eq
  | PInf => Gt
  | NInf => Lt
  | Fin r => Rsign r
  end.

Definition fmul (a b : f64) : f64 :=
  match a, b with
  | NaN, _ | _, NaN => NaN
  | Fin x, Fin y => Fin (x * y)
  | PInf, _ => finf_scaled (fsign b)
  | NInf, _ => finf_scaled (CompOpp (fsign b))
  | _, PInf => finf_scaled (fsign a)
  | _, NInf => finf_scaled (CompOpp (fsign a))
  end.

(** Division.  A zero divisor stands for +0.0: the only divisors of the
    pipeline are positive constants and [PT], a square root. *)
Definition fdiv (a b : f64) : f64 :=
  match a, b with
  | NaN, _ | _, NaN => NaN
  | (PInf | NInf), (PInf | NInf) => NaN
  | Fin _, (PInf | NInf) => Fin 0
  | PInf, Fin y => if Rlt_dec y 0 then NInf else PInf
  | NInf, Fin y => if Rlt_dec y 0 then PInf else NInf
  | Fin x, Fin y =>
      if Req_dec_T y 0 then finf_scaled (Rsign x) else Fin (x / y)
  end.

Definition fsqrt (a : f64) : f64 :=
  match a with
  | NaN | NInf => NaN
  | PInf => PInf
  | Fin r => if Rlt_dec r 0 then NaN else Fin (sqrt r)
  end.

(** [np.log], [np.exp], [np.arcsinh], [np.arcsin] *)
Definition np_log (a : f64) : f64 :=
  match a with
  | NaN | NInf => NaN
  | PInf => PInf
  | Fin r =>
      match Rsign r with
      | Gt => Fin (ln r)
      | Eq => NInf
      | Lt => NaN
      end
  end.

Definition np_exp (a : f64) : f64 :=
  match a with
  | NaN => NaN
  | PInf => PInf
  | NInf => Fin 0
  | Fin r => Fin (exp r)
  end.

Definition np_arcsinh (a : f64) : f64 :=
  match a with
  | Fin r => Fin (arcsinh r)
  | other => other
  end.

Definition np_arcsin (a : f64) : f64 :=
  match a with
  | Fin r =>
      if Rle_dec (-1) r then if Rle_dec r 1 then Fin (asin r) else NaN
      else NaN
  | _ => NaN
  end.

(** [x != 0] on a float array: true for NaN and the infinities. *)
Definition fne0 (a : f64) : bool :=
  match a with
  | Fin r => if Req_dec_T r 0 then false else true
  | _ => true
  end.

Definition isnan (a : f64) : bool :=
  match a with NaN => true | _ => false end.

(** [Series.fillna(0)]: only NaN is a missing value; infinities stay. *)
Definition fillna0 (a : f64) : f64 := if isnan a then Fin 0 else a.

(** ** Conversion to [np.uint8]

    [astype(np.uint8)] is the C conversion: the fractional part is
    discarded (truncation toward zero).  For a truncated value outside
    [0, 255] the C result is not defined; NumPy on x86-64 converts with
    [cvttsd2si] and keeps the low byte, i.e. wraps modulo 256, and NaN and
    the infinities give 0.  That is the behaviour modelled. *)

Definition Ztrunc (r : R) : Z :=
  if Rle_dec 0 r then Zfloor r else Zceil r.

Definition wrap_uint8 (z : Z) : Z := (z mod 256)%Z.

Definition astype_uint8 (a : f64) : Z :=
  match a with
  | Fin r => wrap_uint8 (Ztrunc r)
  | _ => 0%Z
  end.

(** ** Quantiser ([transform]) and dequantiser ([reverse_transform]) *)

(** [np.where(cond, a, 0)] on one element. *)
Definition np_where0 (cond : bool) (a : f64) : f64 :=
  if cond then a else Fin 0.

(** The keyword argument [range=(-10, 5)] is a pair of Python ints. *)
Definition default_range : Z * Z := ((-10)%Z, 5%Z).

Definition transform_range (x : f64) (range : Z * Z) : Z :=
  let lo := fst range in
  let hi := snd range in
  let map_1_255 :=
    fadd (fmul (fdiv (fsub (np_log x) (Fin (IZR lo))) (Fin (IZR (hi - lo))))
               (Fin 255))
         (Fin 1) in
  astype_uint8 (np_where0 (fne0 x) map_1_255).

Definition transform (x : f64) : Z := transform_range x default_range.

(** [x_uint8 - 1] stays in [np.uint8] and wraps; [/ 255] is true division
    and gives a float. *)
Definition reverse_transform_range (x_uint8 : Z) (range : Z * Z) : f64 :=
  let lo := fst range in
  let hi := snd range in
  let reverse_map_1_255 :=
    np_exp
      (fadd (fmul (fdiv (Fin (IZR (wrap_uint8 (x_uint8 - 1)))) (Fin 255))
                  (Fin (IZR (hi - lo))))
            (Fin (IZR lo))) in
  np_where0 (negb (x_uint8 =? 0)%Z) reverse_map_1_255.

Definition reverse_transform (x_uint8 : Z) : f64 :=
  reverse_transform_range x_uint8 default_range.

(** Both functions are applied to whole arrays; an image is a 40 x 40 x 1
    array (rows, columns, one channel). *)
Definition array3 (A : Type) : Type := list (list (list A)).

Definition map3 {A B : Type} (f : A -> B) (a : array3 A) : array3 B :=
  map (map (map f)) a.

Definition transform_img (img : array3 f64) : array3 Z := map3 transform img.

Definition reverse_transform_img (img : array3 Z) : array3 f64 :=
  map3 reverse_transform img.

Definition zeros (n m : nat) : array3 f64 := repeat (repeat [Fin 0] m) n.

(** The real-valued code of a positive input before the conversion to
    [np.uint8]: [(log x - lo) / (hi - lo) * 255 + 1] at the default range. *)
Definition code_value (x : R) : R := (ln x - (-10)) / 15 * 255 + 1.

(** The per-bin step of the logarithmic scale, [(hi - lo) / 255]. *)
Definition bin_step : R := (5 - (-10)) / 255.

(** [y] approximates [x] within one logarithmic bin step. *)
Definition within_bin_step (x y : R) : Prop :=
  x * exp (- bin_step) <= y <= x * exp bin_step.

(** ** Scalars of the rasteriser

    [np.histogram2d] only converts integers, adds, subtracts, multiplies,
    divides and compares its elements, so it is embedded once over the
    interface [Scalar] and instantiated at both element models. *)

Class Scalar (T : Type) : Type := {
  s_of_Z : Z -> T;
  s_add : T -> T -> T;
  s_sub : T -> T -> T;
  s_mul : T -> T -> T;
  s_div : T -> T -> T;
  (** [a <= b] in NumPy's sort order, in which NaN comes last *)
  s_le : T -> T -> bool;
  (** IEEE [==] *)
  s_eq : T -> T -> bool
}.

Definition f64_le (a b : f64) : bool :=
  match a, b with
  | _, NaN => true
  | NaN, _ => false
  | NInf, _ => true
  | _, NInf => false
  | _, PInf => true
  | PInf, _ => false
  | Fin x, Fin y => if Rle_dec x y then true else false
  end.

Definition f64_eq (a b : f64) : bool :=
  match a, b with
  | PInf, PInf | NInf, NInf => true
  | Fin x, Fin y => if Req_dec_T x y then true else false
  | _, _ => false
  end.

#[export] Instance f64_scalar : Scalar f64 := {
  s_of_Z z := Fin (IZR z);
  s_add := fadd;
  s_sub := fsub;
  s_mul := fmul;
  s_div := fdiv;
  s_le := f64_le;
  s_eq := f64_eq
}.

Definition float_of_Z (z : Z) : PrimFloat.float :=
  match z with
  | Z0 => PrimFloat.zero
  | Zpos p => PrimFloat.of_uint63 (Uint63Axioms.of_pos p)
  | Zneg p => PrimFloat.opp (PrimFloat.of_uint63 (Uint63Axioms.of_pos p))
  end.

#[export] Instance binary64_scalar : Scalar PrimFloat.float := {
  s_of_Z := float_of_Z;
  s_add := PrimFloat.add;
  s_sub := PrimFloat.sub;
  s_mul := PrimFloat.mul;
  s_div := PrimFloat.div;
  s_le a b := PrimFloat.leb a b || PrimFloat.is_nan b;
  s_eq := PrimFloat.eqb
}.

(** ** Coordinate transform ([get_df_rel]) *)

(** The loops of the notebook run over [range(200)]. *)
Definition n_constituents : nat := 200.

(** One row of the input table: the label and the column families
    [E_i], [PX_i], [PY_i], [PZ_i], of which the slots [i < 200] are read. *)
Record jet : Type := {
  is_signal_new : Z;
  E : nat -> f64;
  PX : nat -> f64;
  PY : nat -> f64;
  PZ : nat -> f64
}.

(** The triple [PT_i], [ETA_i], [PHI_i] of one constituent. *)
Record constituent (T : Type) : Type := {
  PT : T;
  ETA : T;
  PHI : T
}.
Arguments PT {T} _.
Arguments ETA {T} _.
Arguments PHI {T} _.

(** One row of [df_rel]. *)
Record jet_rel : Type := {
  rel_is_signal_new : Z;
  rel_constituents : list (constituent f64)
}.

(** First loop: [PT_i], [ETA_i], [PHI_i] in absolute coordinates. *)
Definition abs_PT (j : jet) (i : nat) : f64 :=
  fsqrt (fadd (fmul (PX j i) (PX j i)) (fmul (PY j i) (PY j i))).

Definition abs_ETA (j : jet) (i : nat) : f64 :=
  np_arcsinh (fdiv (PZ j i) (abs_PT j i)).

Definition abs_PHI (j : jet) (i : nat) : f64 :=
  np_arcsin (fdiv (PY j i) (abs_PT j i)).

(** Second loop (against the copies [PT_0], [ETA_0], [PHI_0]) followed by
    [fillna(0)]; the integer label column has no NaN to fill. *)
Definition get_df_rel_row (j : jet) : jet_rel :=
  let PT_0 := abs_PT j 0 in
  let ETA_0 := abs_ETA j 0 in
  let PHI_0 := abs_PHI j 0 in
  {| rel_is_signal_new := is_signal_new j;
     rel_constituents :=
       map (fun i =>
              {| PT := fillna0 (fdiv (abs_PT j i) PT_0);
                 ETA := fillna0 (fsub (abs_ETA j i) ETA_0);
                 PHI := fillna0 (fsub (abs_PHI j i) PHI_0) |})
           (seq 0 n_constituents) |}.

(** Every column operation is element-wise, so the frame is transformed
    row by row. *)
Definition get_df_rel (df : list jet) : list jet_rel := map get_df_rel_row df.

(** The zero-padded jet with the given leading and second constituent. *)
Definition two_constituents (p0 p1 : R * R * R * R) : jet :=
  let col (f : R * R * R * R -> R) (i : nat) : f64 :=
    match i with
    | O => Fin (f p0)
    | S O => Fin (f p1)
    | _ => Fin 0
    end in
  {| is_signal_new := 1;
     E := col (fun p => fst (fst (fst p)));
     PX := col (fun p => snd (fst (fst p)));
     PY := col (fun p => snd (fst p));
     PZ := col (fun p => snd p) |}.

(** ** Rasteriser ([np.histogram2d], [get_img_array]) *)

Section Rasteriser.
Context {T : Type} `{Scalar T}.

(** [np.linspace(start, stop, num)] with the end point included:
    [arange(num) * step + start], last element set to [stop]. *)
Definition linspace (start stop : T) (num : nat) : list T :=
  let step := s_div (s_sub stop start) (s_of_Z (Z.of_nat (num - 1))) in
  map (fun k =>
         if (k =? num - 1)%nat then stop
         else s_add (s_mul (s_of_Z (Z.of_nat k)) step) start)
      (seq 0 num).

(** [np.searchsorted(a, v, side='right')] on a sorted [a]: the number of
    elements [<= v]. *)
Definition searchsorted_right (a : list T) (v : T) : nat :=
  length (filter (fun e => s_le e v) a).

(** Bin number along one axis, outliers included: 0 below the range,
    [length edges] above it; a value on the rightmost edge is moved into
    the last bin. *)
Definition bin_index (edges : list T) (v : T) : nat :=
  let n := searchsorted_right edges v in
  if s_eq v (last edges (s_of_Z 0)) then (n - 1)%nat else n.

(** [out[k] += w].  An index beyond the array leaves it unchanged here;
    [histogram2d] never produces one ([ravel_index_bound] below). *)
Fixpoint add_at (k : nat) (w : T) (out : list T) : list T :=
  match out, k with
  | [], _ => []
  | c :: out', O => s_add c w :: out'
  | c :: out', S k' => c :: add_at k' w out'
  end.

(** [np.bincount(xy, weights, minlength)]: the sequential loop
    [out[xy[i]] += weights[i]] over a zero array. *)
Fixpoint bincount_loop (xyw : list (nat * T)) (out : list T) : list T :=
  match xyw with
  | [] => out
  | (k, w) :: rest => bincount_loop rest (add_at k w out)
  end.

Definition bincount (xy : list nat) (weights : list T) (minlength : nat)
  : list T :=
  bincount_loop (combine xy weights) (repeat (s_of_Z 0) minlength).

(** [np.histogram2d(x, y, bins=(40, 40), range=([-1, 1], [-1, 1]),
    weights=w)]: bin numbers per axis, flattened by
    [ravel_multi_index] over the 42 x 42 grid with outlier bins,
    accumulated by [bincount], reshaped, outlier bins stripped. *)
Definition nbin : nat := 42.

Definition histogram_edges : list T :=
  linspace (s_of_Z (-1)) (s_of_Z 1) 41.

Definition ravel_index (x y : T) : nat :=
  (bin_index histogram_edges x * nbin + bin_index histogram_edges y)%nat.

(** The three arrays are columns of one [200 x 3] array and have the same
    length. *)
Definition histogram2d (x y w : list T) : list (list T) :=
  let xy := map (fun p => ravel_index (fst p) (snd p)) (combine x y) in
  let hist := bincount xy w (nbin * nbin) in
  map (fun i => map (fun j => nth (i * nbin + j) hist (s_of_Z 0))
                    (seq 1 40))
      (seq 1 40).

(** Body of the loop of [get_img_array]: the image of one jet, with the
    trailing channel axis of [reshape(-1, 40, 40, 1)]. *)
Definition jet_image (trf : list (constituent T)) : array3 T :=
  let pt := map PT trf in
  let eta := map ETA trf in
  let phi := map PHI trf in
  map (map (fun v => [v])) (histogram2d eta phi pt).

(** The weights that land in flattened bin [k], in particle order. *)
Definition bin_weights (k : nat) (trf : list (constituent T)) : list T :=
  map PT (filter (fun c => (ravel_index (ETA c) (PHI c) =? k)%nat) trf).
End Rasteriser.

(** Three binary64 particles in the centre cell, in two orders. *)
Definition heavy_first : list (constituent float) :=
  [ {| PT := 1e16%float; ETA := 0%float; PHI := 0%float |};
    {| PT := 1%float; ETA := 0%float; PHI := 0%float |};
    {| PT := 1%float; ETA := 0%float; PHI := 0%float |} ].

Definition heavy_last : list (constituent float) :=
  [ {| PT := 1%float; ETA := 0%float; PHI := 0%float |};
    {| PT := 1%float; ETA := 0%float; PHI := 0%float |};
    {| PT := 1e16%float; ETA := 0%float; PHI := 0%float |} ].

Definition centre_cell (img : array3 float) : float :=
  nth 0 (nth 20 (nth 20 img []) []) 0%float.

(** One binary64 particle of weight 1 at relative coordinates (0, 0). *)
Definition unit_centre : list (constituent float) :=
  [ {| PT := 1%float; ETA := 0%float; PHI := 0%float |} ].

Definition binary64_total (img : array3 float) : float :=
  fold_left PrimFloat.add (concat (concat img)) 0%float.

(** [get_img_array]: [np.stack] of an empty list raises. *)
Definition get_img_array (df : list jet_rel) : option (list (array3 f64)) :=
  match df with
  | [] => None
  | _ => Some (map (fun r => jet_image (rel_constituents r)) df)
  end.

(** A list of finite triples [(pt, eta, phi)] as constituents. *)
Definition finite_constituent (p : R * R * R) : constituent f64 :=
  {| PT := Fin (fst (fst p));
     ETA := Fin (snd (fst p));
     PHI := Fin (snd p) |}.

Definition Rsum (l : list R) : R := fold_right Rplus 0 l.

(** The bin edges of the idealised model as reals, and the test for a
    non-outlier bin number. *)
Definition edge_at (k : nat) : R :=
  if (k =? 40)%nat then 1
  else IZR (Z.of_nat k) * ((1 + - -1) / 40) + -1.

(** [edge k <= v] *)
Definition edge_le (v : R) (k : nat) : bool :=
  if Rle_dec (edge_at k) v then true else false.

Definition core_bin (b : nat) : bool := (1 <=? b)%nat && (b <=? 40)%nat.

(** Sum of [h i j] over the core cells, row by row. *)
Definition core_sum (h : nat -> nat -> R) : R :=
  Rsum (flat_map (fun i => map (h i) (seq 1 40)) (seq 1 40)).

(** ** Chunked driver ([preprocess]) *)

(** [pd.read_hdf(path, "table", start=start, stop=stop)] on a stored table:
    the rows [start .. stop-1] that exist. *)
Definition read_hdf (table : list jet) (start stop : nat) : list jet :=
  firstn (stop - start) (skipn start table).

(** [range(0, stop, step)] for [step > 0]. *)
Definition py_range (stop step : nat) : list nat :=
  map (fun k => (k * step)%nat) (seq 0 ((stop + step - 1) / step)).

(** [np.concatenate] of an empty list of arrays raises. *)
Definition np_concatenate {A : Type} (chunks : list (list A))
  : option (list A) :=
  match chunks with
  | [] => None
  | _ => Some (concat chunks)
  end.

Definition bind {A B : Type} (m : option A) (k : A -> option B) : option B :=
  match m with
  | Some a => k a
  | None => None
  end.

Notation "x <- m ;; k" := (bind m (fun x => k))
  (at level 61, m at next level, right associativity).

(** The loop body: one chunk gives its images and its labels. *)
Definition preprocess_chunk (table : list jet) (chunksize start : nat)
  : option (list (array3 f64) * list Z) :=
  let df := read_hdf table start (start + chunksize) in
  let df_rel := get_df_rel df in
  x <- get_img_array df_rel ;;
  Some (x, map rel_is_signal_new df_rel).

Fixpoint preprocess_loop (table : list jet) (chunksize : nat)
  (starts : list nat) : option (list (list (array3 f64)) * list (list Z)) :=
  match starts with
  | [] => Some ([], [])
  | start :: rest =>
      c <- preprocess_chunk table chunksize start ;;
      r <- preprocess_loop table chunksize rest ;;
      Some (fst c :: fst r, snd c :: snd r)
  end.

(** [preprocess(df_path, n_examples, chunksize)]; [None] stands for a
    raised exception ([range] with step 0, [np.stack] or [np.concatenate]
    of nothing). *)
Definition preprocess (table : list jet) (n_examples chunksize : nat)
  : option (list (array3 f64) * list Z) :=
  if (chunksize =? 0)%nat then None
  else
    xy <- preprocess_loop table chunksize (py_range n_examples chunksize) ;;
    x <- np_concatenate (fst xy) ;;
    y <- np_concatenate (snd xy) ;;
    Some (x, y).

(** The image computed from one input row, and the rows a call reads:
    every chunk is read in full, so [ceil(n_examples / chunksize)] chunks
    cover the first [ceil(n_examples / chunksize) * chunksize] rows. *)
Definition row_image (r : jet) : array3 f64 :=
  jet_image (rel_constituents (get_df_rel_row r)).

Definition n_chunks (n_examples chunksize : nat) : nat :=
  (n_examples + chunksize - 1) / chunksize.

Definition rows_read (table : list jet) (n_examples chunksize : nat) : list jet :=
  firstn (n_chunks n_examples chunksize * chunksize) table.

(** A jet with one unit of momentum along x in every slot, and a table
    of three of them. *)
Definition labelled_jet (label : Z) : jet :=
  {| is_signal_new := label;
     E := fun _ => Fin 0; PX := fun _ => Fin 1;
     PY := fun _ => Fin 0; PZ := fun _ => Fin 0 |}.

Definition three_jets : list jet :=
  [labelled_jet 1; labelled_jet 0; labelled_jet 1].

(** Two finite constituents in different cells. *)
Definition two_cells : list (constituent f64) :=
  [finite_constituent (1, 0, 0); finite_constituent (/ 2, / 4, - / 4)].

(** ** Further vocabulary for the coordinate transform *)

(** Slot [i] is zero padding. *)
Definition zero_slot (j : jet) (i : nat) : Prop :=
  PX j i = Fin 0 /\ PY j i = Fin 0 /\ PZ j i = Fin 0.

(** No component of the triple is NaN. *)
Definition no_nan (c : constituent f64) : bool :=
  negb (isnan (PT c)) && negb (isnan (ETA c)) && negb (isnan (PHI c)).

(** ** Further vocabulary for images *)

(** [img[i, j, 0]], when the indices are inside the array. *)
Definition pixel_at {A : Type} (img : array3 A) (i j : nat) : option A :=
  row <- nth_error img i ;;
  px <- nth_error row j ;;
  nth_error px 0.

(** The array has shape [n x m x 1]. *)
Definition has_shape {A : Type} (n m : nat) (img : array3 A) : Prop :=
  length img = n /\
  Forall (fun row => length row = m /\ Forall (fun px => length px = 1%nat) row)
         img.

(** Both bin numbers of the constituent are core bins (1 .. 40), i.e. it
    is not an outlier of the histogram. *)
Definition in_core_bins {T : Type} `{Scalar T} (c : constituent T) : bool :=
  core_bin (bin_index histogram_edges (ETA c)) &&
  core_bin (bin_index histogram_edges (PHI c)).

(** The flattened bin number of core cell [(i, j)], [0 <= i, j < 40]. *)
Definition core_cell_index (i j : nat) : nat := (S i * nbin + S j)%nat.

(** ** The notebook's top-level cells

    The training split is computed without [preprocess]:
    [df_train = pd.read_hdf(..., stop=n_examples)],
    [x_train = get_img_array(get_df_rel(df_train))],
    [y_train = df_rel_train.is_signal_new.values]. *)
Definition train_split (table : list jet) (n_examples : nat)
  : option (list (array3 f64) * list Z) :=
  let df_train := read_hdf table 0 n_examples in
  let df_rel_train := get_df_rel df_train in
  x_train <- get_img_array df_rel_train ;;
  Some (x_train, map rel_is_signal_new df_rel_train).

(** What [np.savez_compressed] is given for one split:
    [transform(x)] (element-wise on the 4-dimensional array) and [y]. *)
Definition stored_split (xy : list (array3 f64) * list Z)
  : list (array3 Z) * list Z :=
  (map transform_img (fst xy), snd xy).

(** Every element of the array is a value of [np.uint8]. *)
Definition codes_in_uint8 (img : array3 Z) : Prop :=
  Forall (Forall (Forall (fun q => (0 <= q <= 255)%Z))) img.

(** ** Efficiency lookup ([pred_proba_from_hist], TauRecoEffEval.ipynb) *)

Section EfficiencyLookup.
Context {T : Type} `{Scalar T} {A : Type}.

(** The global bin edges: [EX = np.linspace(0, 3, 10)] for |eta| and
    [EY = np.linspace(0, 400, 5)] for pt. *)
Definition EX : list T := linspace (s_of_Z 0) (s_of_Z 3) 10.
Definition EY : list T := linspace (s_of_Z 0) (s_of_Z 400) 5.

(** [np.digitize(x, bins)] on increasing [bins] is
    [np.searchsorted(bins, x, side='right')]: 0 below the first edge,
    [len(bins)] from the last edge on (and for NaN). *)
Definition digitize (x bins : list T) : list nat :=
  map (searchsorted_right bins) x.

(** [a[-1:]] and [a[0:1]] along one axis. *)
Definition last_slice {B : Type} (l : list B) : list B :=
  skipn (length l - 1) l.

Definition first_slice {B : Type} (l : list B) : list B := firstn 1 l.

(** [a = np.append(a, a[-1:])] followed by [a = np.append(a[0:1], a)]. *)
Definition pad_ends {B : Type} (l : list B) : list B :=
  let l' := l ++ last_slice l in
  first_slice l' ++ l'.

(** The four [np.append] calls: first along axis 0, then along axis 1. *)
Definition pad_hist (h : list (list A)) : list (list A) :=
  map pad_ends (pad_ends h).

(** [h[x, y]]; [None] is an [IndexError]. *)
Definition index2 (h : list (list A)) (x y : nat) : option A :=
  row <- nth_error h x ;;
  nth_error row y.

(** The loop [effs[i] = h[x, y]] over [zip(eta_idx, pt_idx)]. *)
Fixpoint fill_effs (h : list (list A)) (idx : list (nat * nat))
  : option (list A) :=
  match idx with
  | [] => Some []
  | (x, y) :: rest =>
      e <- index2 h x y ;;
      es <- fill_effs h rest ;;
      Some (e :: es)
  end.

(** [pred_proba_from_hist(pt, abseta, eff_hist)].  [effs] starts as
    [np.empty(len(eta_idx))]: an entry the loop does not reach stays
    unset, written [None] inside the list; the outer [None] is a raised
    [IndexError]. *)
Definition pred_proba_from_hist (pt abseta : list T) (eff_hist : list (list A))
  : option (list (option A)) :=
  let h := pad_hist eff_hist in
  let eta_idx := digitize abseta EX in
  let pt_idx := digitize pt EY in
  es <- fill_effs h (combine eta_idx pt_idx) ;;
  Some (map Some es ++ repeat None (length eta_idx - length es)).
End EfficiencyLookup.

(** A bin number with under- and overflow bins (0 and [n + 1]) moved
    into the nearest of the [n] proper bins, counted from 0. *)
Definition clamp_bin (n idx : nat) : nat := Nat.min (idx - 1) (n - 1).

(** A 9 x 4 table whose cell [(i, j)] holds [10 * i + j]. *)
Definition index_table : list (list nat) :=
  map (fun i => map (fun j => (10 * i + j)%nat) (seq 0 4)) (seq 0 9).

(** ** The pipeline on binary64

    The quantiser and the coordinate transform once more, element by
    element on Rocq's primitive binary64 numbers, where every operation
    rounds, overflows and underflows as IEEE 754 prescribes.  [np.sqrt]
    is the correctly rounded square root.  [np.log], [np.exp],
    [np.arcsinh] and [np.arcsin] are functions of the C library, which is
    not part of the notebook: they are parameters, and what is proved
    holds for every choice of them. *)

(** The exact value of a finite binary64 number, [(-1)^s * m * 2^e]; the
    non-finite ones are given the value 0. *)
Definition SF2R (x : SpecFloat.spec_float) : R :=
  match x with
  | SpecFloat.S754_finite s m e =>
      IZR (SpecFloat.cond_Zopp s (Zpos m)) * powerRZ 2 e
  | _ => 0
  end.

Definition B2R (x : float) : R := SF2R (FloatOps.Prim2SF x).

(** The position of a binary64 number on the extended real line: the
    infinities sit at [+- 2^1024], beyond every finite value. *)
Definition SF2X (x : SpecFloat.spec_float) : R :=
  match x with
  | SpecFloat.S754_infinity s => IZR (SpecFloat.cond_Zopp s (2 ^ 1024))
  | _ => SF2R x
  end.

Definition B2X (x : float) : R := SF2X (FloatOps.Prim2SF x).

Definition SFnan (a : SpecFloat.spec_float) : bool :=
  match a with SpecFloat.S754_nan => true | _ => false end.

Module Binary64.

(** Finite and nonzero. *)
Definition regular (x : float) : bool :=
  negb (PrimFloat.is_nan x) && negb (PrimFloat.is_infinity x)
  && negb (PrimFloat.is_zero x).

(** [Series.fillna(0)] *)
Definition fillna0 (x : float) : float :=
  if PrimFloat.is_nan x then 0%float else x.

(** The fractional part discarded: [m * 2^e] shifted to an integer. *)
Definition float_trunc (x : float) : Z :=
  match FloatOps.Prim2SF x with
  | SpecFloat.S754_finite s m e =>
      SpecFloat.cond_Zopp s (Z.shiftl (Zpos m) e)
  | _ => 0%Z
  end.

(** [astype(np.uint8)], as for the idealised values: truncation, low
    byte, 0 for NaN and the infinities. *)
Definition astype_uint8 (x : float) : Z := wrap_uint8 (float_trunc x).

(** [x != 0]: false for both zeros, true for NaN. *)
Definition fne0 (x : float) : bool := negb (x =? 0)%float.

Definition np_where0 (cond : bool) (a : float) : float :=
  if cond then a else 0%float.

Section Quantiser.
Variables np_log np_exp : float -> float.

(** The local variable [map_1_255] of [transform]; the integers of
    [range] and the literals 255 and 1 are converted to binary64. *)
Definition map_1_255 (x : float) (range : Z * Z) : float :=
  let lo := fst range in
  let hi := snd range in
  ((np_log x - float_of_Z lo) / float_of_Z (hi - lo) * 255 + 1)%float.

Definition transform_range (x : float) (range : Z * Z) : Z :=
  astype_uint8 (np_where0 (fne0 x) (map_1_255 x range)).

Definition transform (x : float) : Z := transform_range x default_range.

Definition reverse_transform_range (x_uint8 : Z) (range : Z * Z) : float :=
  let lo := fst range in
  let hi := snd range in
  let reverse_map_1_255 :=
    np_exp (float_of_Z (wrap_uint8 (x_uint8 - 1)) / 255 * float_of_Z (hi - lo)
            + float_of_Z lo)%float in
  np_where0 (negb (x_uint8 =? 0)%Z) reverse_map_1_255.

Definition reverse_transform (x_uint8 : Z) : float :=
  reverse_transform_range x_uint8 default_range.
End Quantiser.

Record jet : Type := {
  is_signal_new : Z;
  E : nat -> float;
  PX : nat -> float;
  PY : nat -> float;
  PZ : nat -> float
}.

Record jet_rel : Type := {
  rel_is_signal_new : Z;
  rel_constituents : list (constituent float)
}.

(** [np.sqrt(PX**2 + PY**2)]: the square is the rounded product. *)
Definition abs_PT (j : jet) (i : nat) : float :=
  PrimFloat.sqrt (PX j i * PX j i + PY j i * PY j i)%float.

Section CoordinateTransform.
Variables np_arcsinh np_arcsin : float -> float.

Definition abs_ETA (j : jet) (i : nat) : float :=
  np_arcsinh (PZ j i / abs_PT j i)%float.

Definition abs_PHI (j : jet) (i : nat) : float :=
  np_arcsin (PY j i / abs_PT j i)%float.

Definition get_df_rel_row (j : jet) : jet_rel :=
  let PT_0 := abs_PT j 0 in
  let ETA_0 := abs_ETA j 0 in
  let PHI_0 := abs_PHI j 0 in
  {| rel_is_signal_new := is_signal_new j;
     rel_constituents :=
       map (fun i =>
              {| PT := fillna0 (abs_PT j i / PT_0)%float;
                 ETA := fillna0 (abs_ETA j i - ETA_0)%float;
                 PHI := fillna0 (abs_PHI j i - PHI_0)%float |})
           (seq 0 n_constituents) |}.

Definition get_df_rel (df : list jet) : list jet_rel := map get_df_rel_row df.
End CoordinateTransform.

(** The image computed from one input row, and the quantiser on a whole
    image. *)
Definition row_image (np_arcsinh np_arcsin : float -> float) (j : jet)
  : array3 float :=
  jet_image (rel_constituents (get_df_rel_row np_arcsinh np_arcsin j)).

Definition transform_img (np_log : float -> float) (img : array3 float)
  : array3 Z :=
  map3 (transform np_log) img.

(** The zero-padded jet whose leading constituent has the given
    momentum. *)
Definition leading_only (px py pz : float) : jet :=
  let col (v : float) (i : nat) : float :=
    match i with O => v | _ => 0%float end in
  {| is_signal_new := 1;
     E := col 0%float; PX := col px; PY := col py; PZ := col pz |}.

End Binary64.

(** [np.exp(5.0)], the binary64 number 148.4131591025766 (it lies just
    below [e^5]), and [np.e]. *)
Definition range_top_double : float := 0x1.28d389970338fp+7%float.

Definition np_e : float := 0x1.5bf0a8b145769p+1%float.

(** The values of [np.log] at 1.0, [np.e] and [np.exp(5.0)]; a logarithm
    with which the parameter [np_log] can be instantiated on these
    inputs. *)
Definition log_table (x : float) : float :=
  if (x =? 1)%float then 0%float
  else if (x =? np_e)%float then 1%float
  else if (x =? range_top_double)%float then 5%float
  else nan.

(** Factorials and the numerators of the partial sums of
    [sum (-1)^i / i!], as integers. *)
Fixpoint factZ (n : nat) : Z :=
  match n with
  | O => 1%Z
  | S k => (Z.of_nat (S k) * factZ k)%Z
  end.

Fixpoint alt_num (n : nat) : Z :=
  match n with
  | O => 1%Z
  | S k => (Z.of_nat (S k) * alt_num k + (if Nat.even (S k) then 1 else -1))%Z
  end.

(** ** Exact accumulation

    The value [val] of a running sum follows the running sum of the
    values when no addition rounds. *)
Fixpoint exact_fold {T : Type} `{Scalar T} (val : T -> R) (acc : T)
  (ws : list T) : Prop :=
  match ws with
  | [] => True
  | w :: ws' =>
      val (s_add acc w) = val acc + val w /\ exact_fold val (s_add acc w) ws'
  end.

(** Every addition [out[k] += w] into a cell of the 40 x 40 core is
    exact. *)
Definition exact_accumulation {T : Type} `{Scalar T} (val : T -> R)
  (trf : list (constituent T)) : Prop :=
  forall i j, (1 <= i <= 40)%nat -> (1 <= j <= 40)%nat ->
    exact_fold val (s_of_Z 0) (bin_weights (i * nbin + j) trf).

(** The exact sum of the values of all cells, and of all weights. *)
Definition image_value {T : Type} (val : T -> R) (img : array3 T) : R :=
  Rsum (map val (concat (concat img))).

Definition pt_value {T : Type} (val : T -> R) (trf : list (constituent T)) : R :=
  Rsum (map (fun c => val (PT c)) trf).

(** A weight is a zero of either sign. *)
Definition zero_weight (w : float) : Prop :=
  exists s, FloatOps.Prim2SF w = SpecFloat.S754_zero s.

(** The tests [0 <= pt < inf] and [-1 <= eta <= 1 and -1 <= phi <= 1] on
    binary64 numbers; a NaN fails both. *)
Definition finite_nonneg (x : float) : bool :=
  ((0 <=? x) && (x <? infinity))%float.

Definition in_range_binary64 (c : constituent float) : bool :=
  ((-1 <=? ETA c) && (ETA c <=? 1) && ((-1 <=? PHI c) && (PHI c <=? 1)))%float.

(** The list is strictly increasing (and so free of NaN, when it has at
    least two elements). *)
Fixpoint increasing (l : list float) : bool :=
  match l with
  | a :: (b :: _) as l' => (a <? b)%float && increasing l'
  | _ => true
  end.

(** The binary64 numbers nearest to 0.1 and to 1/3. *)
Definition one_tenth : float := 0x1.999999999999ap-4%float.

(** Binary64 particles: two whose weights 0.1 and 0.2 meet in the centre
    cell, and two of integer weight, one of them outside the range. *)
Definition tenth_and_fifth : list (constituent float) :=
  [ {| PT := one_tenth; ETA := 0%float; PHI := 0%float |};
    {| PT := 0x1.999999999999ap-3%float; ETA := 0%float; PHI := 0%float |} ].

Definition inside_and_outside : list (constituent float) :=
  [ {| PT := 1%float; ETA := 0%float; PHI := 0%float |};
    {| PT := 2%float; ETA := 0%float; PHI := 0%float |};
    {| PT := 3%float; ETA := 2%float; PHI := 0%float |} ].

Definition weightless_outside : list (constituent float) :=
  [ {| PT := 0%float; ETA := 2%float; PHI := 0%float |} ].

(* ================================================================== *)
(** * Part II: properties                                              *)
(* ================================================================== *)

(** ** Quantiser *)

Lemma Rsign_pos (r : R) : 0 < r -> Rsign r = Gt.
Proof. intros H. unfold Rsign. destruct (Rlt_dec 0 r); [reflexivity | lra]. Qed.

Lemma Rsign_zero : Rsign 0 = Eq.
Proof.
  unfold Rsign.
  destruct (Rlt_dec 0 0); [lra | reflexivity].
Qed.

Lemma Rsign_neg (r : R) : r < 0 -> Rsign r = Lt.
Proof.
  intros H. unfold Rsign.
  destruct (Rlt_dec 0 r); [lra |].
  destruct (Rlt_dec r 0); [reflexivity | lra].
Qed.

Lemma fne0_Fin (r : R) : r <> 0 -> fne0 (Fin r) = true.
Proof. intros H. simpl. destruct (Req_dec_T r 0); [contradiction | reflexivity]. Qed.

Lemma fdiv_Fin (x y : R) : y <> 0 -> fdiv (Fin x) (Fin y) = Fin (x / y).
Proof. intros H. simpl. destruct (Req_dec_T y 0); [contradiction | reflexivity]. Qed.

Lemma Ztrunc_nonneg (r : R) : 0 <= r -> Ztrunc r = Zfloor r.
Proof. intros H. unfold Ztrunc. destruct (Rle_dec 0 r); [reflexivity | lra]. Qed.

Lemma Ztrunc_IZR (z : Z) : Ztrunc (IZR z) = z.
Proof.
  unfold Ztrunc. destruct (Rle_dec 0 (IZR z)).
  - apply ZfloorZ.
  - unfold Zceil. rewrite <- opp_IZR, ZfloorZ. lia.
Qed.

Lemma wrap_uint8_range (z : Z) : (0 <= wrap_uint8 z <= 255)%Z.
Proof. unfold wrap_uint8. pose proof (Z.mod_pos_bound z 256). lia. Qed.

Lemma wrap_uint8_small (z : Z) : (0 <= z <= 255)%Z -> wrap_uint8 z = z.
Proof. intros H. unfold wrap_uint8. apply Z.mod_small. lia. Qed.

(** On a positive finite input the quantiser is the converted value of
    [code_value]. *)
Lemma transform_pos (x : R) :
  0 < x -> transform (Fin x) = wrap_uint8 (Ztrunc (code_value x)).
Proof.
  intros Hx. unfold transform, transform_range, default_range, code_value.
  cbn [fst snd].
  rewrite fne0_Fin by lra.
  cbn [np_where0 np_log]. rewrite Rsign_pos by assumption.
  cbn [fsub fneg fadd].
  rewrite fdiv_Fin by (apply not_0_IZR; lia).
  cbn [fmul fadd astype_uint8].
  change (5 - -10)%Z with 15%Z. reflexivity.
Qed.

Lemma transform_zero : transform (Fin 0) = 0%Z.
Proof.
  unfold transform, transform_range. cbn [fne0].
  destruct (Req_dec_T 0 0); [| contradiction].
  cbn [np_where0 astype_uint8]. rewrite (Ztrunc_IZR 0). reflexivity.
Qed.

Lemma transform_range_bound (x : f64) : (0 <= transform x <= 255)%Z.
Proof.
  unfold transform, transform_range, astype_uint8.
  destruct (np_where0 _ _); try lia. apply wrap_uint8_range.
Qed.

Lemma ln_le_mono (x y : R) : 0 < x -> x <= y -> ln x <= ln y.
Proof.
  intros Hx [Hlt | ->]; [| lra].
  left. now apply ln_increasing.
Qed.

Lemma Ztrunc_le (x y : R) : x <= y -> (Ztrunc x <= Ztrunc y)%Z.
Proof.
  intros Hxy. unfold Ztrunc.
  destruct (Rle_dec 0 x) as [Hx | Hx], (Rle_dec 0 y) as [Hy | Hy]; try lra.
  - now apply Zfloor_le.
  - assert (Zceil x <= 0)%Z.
    { replace 0%Z with (Zceil 0) by (apply (Zceil_eq 0); lra).
      apply Zceil_le. lra. }
    assert (0 <= Zfloor y)%Z by (apply (Zfloor_lub 0); lra).
    lia.
  - now apply Zceil_le.
Qed.

Lemma code_value_exp (t : R) : code_value (exp t) = (t + 10) * 17 + 1.
Proof. unfold code_value. rewrite ln_exp. lra. Qed.

(** ** Dequantiser *)

Lemma reverse_transform_zero : reverse_transform 0 = Fin 0.
Proof. reflexivity. Qed.

Lemma reverse_transform_code (q : Z) :
  (1 <= q <= 255)%Z ->
  reverse_transform q = Fin (exp (IZR (q - 1) / 255 * 15 + -10)).
Proof.
  intros Hq. unfold reverse_transform, reverse_transform_range, default_range.
  cbn [fst snd].
  replace (q =? 0)%Z with false by (symmetry; apply Z.eqb_neq; lia).
  cbn [negb np_where0].
  rewrite wrap_uint8_small by lia.
  rewrite fdiv_Fin by lra.
  reflexivity.
Qed.

(** ** Codes outside the range *)

Lemma transform_one : transform (Fin 1) = 171%Z.
Proof.
  rewrite transform_pos by lra.
  unfold code_value. rewrite ln_1.
  replace ((0 - -10) / 15 * 255 + 1) with (IZR 171) by (simpl; lra).
  rewrite Ztrunc_IZR. reflexivity.
Qed.

Lemma transform_exp_6 : transform (Fin (exp 6)) = 17%Z.
Proof.
  rewrite transform_pos by apply exp_pos.
  rewrite code_value_exp.
  replace ((6 + 10) * 17 + 1) with (IZR 273) by (simpl; lra).
  rewrite Ztrunc_IZR. reflexivity.
Qed.


(** ** The zero sentinel *)

(** C5: zero is preserved exactly by both directions, element-wise and on
    an all-zero 40 x 40 image. *)
Theorem zero_roundtrip_exact :
  transform (Fin 0) = 0%Z /\
  reverse_transform 0 = Fin 0 /\
  transform_img (zeros 40 40) = repeat (repeat [0%Z] 40) 40 /\
  reverse_transform_img (transform_img (zeros 40 40)) = zeros 40 40.
Proof.
  assert (HT : transform_img (zeros 40 40) = repeat (repeat [0%Z] 40) 40).
  { unfold transform_img, map3, zeros. rewrite !map_repeat.
    cbn [map]. now rewrite transform_zero. }
  repeat split.
  - exact transform_zero.
  - exact HT.
  - rewrite HT. unfold reverse_transform_img, map3, zeros.
    now rewrite !map_repeat.
Qed.

(** C8 (as stated) fails below the range: the nonzero input
    [exp (-341/34)] has pre-conversion code 1/2, which truncates to the
    zero sentinel. *)
Lemma transform_zero_code_of_nonzero :
  exp (-341 / 34) <> 0 /\ transform (Fin (exp (-341 / 34))) = 0%Z.
Proof.
  split; [apply exp_neq_0 |].
  rewrite transform_pos by apply exp_pos.
  rewrite code_value_exp.
  replace ((-341 / 34 + 10) * 17 + 1) with (/ 2) by lra.
  rewrite Ztrunc_nonneg by lra.
  rewrite (Zfloor_eq 0) by lra. reflexivity.
Qed.

(** ** Coordinate transform *)

Lemma fillna0_self_difference (v : f64) : fillna0 (fsub v v) = Fin 0.
Proof.
  destruct v as [| | | r]; try reflexivity.
  cbn. f_equal. lra.
Qed.

Lemma fillna0_self_quotient (v : f64) :
  fillna0 (fdiv v v) =
  match v with
  | Fin r => if Req_dec_T r 0 then Fin 0 else Fin 1
  | _ => Fin 0
  end.
Proof.
  destruct v as [| | | r]; try reflexivity.
  cbn [fdiv]. destruct (Req_dec_T r 0) as [-> | Hr].
  - rewrite Rsign_zero. reflexivity.
  - cbn. f_equal. now field.
Qed.

Lemma abs_PT_finite (j : jet) (i : nat) (px py : R) :
  PX j i = Fin px -> PY j i = Fin py ->
  abs_PT j i = Fin (sqrt (px * px + py * py)).
Proof.
  intros Hx Hy. unfold abs_PT. rewrite Hx, Hy. cbn [fmul fadd fsqrt].
  destruct (Rlt_dec (px * px + py * py) 0) as [Hneg | _]; [| reflexivity].
  pose proof (Rle_0_sqr px) as H1. pose proof (Rle_0_sqr py) as H2.
  unfold Rsqr in H1, H2. lra.
Qed.

Lemma sqrt_sum_squares_zero (px py : R) :
  sqrt (px * px + py * py) = 0 <-> px = 0 /\ py = 0.
Proof.
  pose proof (Rle_0_sqr px) as H1. pose proof (Rle_0_sqr py) as H2.
  unfold Rsqr in H1, H2. split.
  - intros Hs. apply sqrt_eq_0 in Hs; [| lra]. split; nra.
  - intros [-> ->]. rewrite Rmult_0_l, Rplus_0_l. apply sqrt_0.
Qed.

Lemma get_df_rel_row_slot (j : jet) (i : nat) :
  (i < n_constituents)%nat ->
  nth_error (rel_constituents (get_df_rel_row j)) i =
  Some {| PT := fillna0 (fdiv (abs_PT j i) (abs_PT j 0));
          ETA := fillna0 (fsub (abs_ETA j i) (abs_ETA j 0));
          PHI := fillna0 (fsub (abs_PHI j i) (abs_PHI j 0)) |}.
Proof.
  intros Hi. unfold get_df_rel_row. cbn [rel_constituents].
  rewrite nth_error_map, nth_error_seq.
  destruct (Nat.ltb_spec i n_constituents) as [_ | Hge]; [| lia].
  reflexivity.
Qed.

(** The leading slot after the transform: [eta] and [phi] are
    [v - v] and [pt] is [v / v], each followed by [fillna(0)]. *)
Lemma leading_slot (j : jet) :
  nth_error (rel_constituents (get_df_rel_row j)) 0 =
  Some {| PT := match abs_PT j 0 with
                | Fin r => if Req_dec_T r 0 then Fin 0 else Fin 1
                | _ => Fin 0
                end;
          ETA := Fin 0;
          PHI := Fin 0 |}.
Proof.
  rewrite get_df_rel_row_slot by (unfold n_constituents; lia).
  now rewrite !fillna0_self_difference, fillna0_self_quotient.
Qed.

Lemma leading_slot_finite (j : jet) (px py : R) :
  PX j 0%nat = Fin px -> PY j 0%nat = Fin py ->
  nth_error (rel_constituents (get_df_rel_row j)) 0 =
  Some {| PT := if Req_dec_T (sqrt (px * px + py * py)) 0 then Fin 0 else Fin 1;
          ETA := Fin 0;
          PHI := Fin 0 |}.
Proof.
  intros Hx Hy. rewrite leading_slot.
  now rewrite (abs_PT_finite j 0 px py Hx Hy).
Qed.

(** C2 (as stated) fails for a jet whose leading constituent has zero
    transverse momentum (here an all-zero leading slot): [0/0] is NaN and
    is filled with 0, so the relative [pt] is 0, not 1. *)
Lemma leading_constituent_zero_pt :
  nth_error (rel_constituents
               (get_df_rel_row (two_constituents (0, 0, 0, 0) (5, 3, 4, 0))))
            0 = Some {| PT := Fin 0; ETA := Fin 0; PHI := Fin 0 |} /\
  Fin 0 <> Fin 1.
Proof.
  split.
  - rewrite (leading_slot_finite _ 0 0) by reflexivity.
    destruct (Req_dec_T _ 0) as [_ | Hz]; [reflexivity |].
    exfalso. apply Hz. apply sqrt_sum_squares_zero. lra.
  - intros Heq. injection Heq as Heq. lra.
Qed.

Lemma abs_PT_zero (j : jet) (i : nat) :
  PX j i = Fin 0 -> PY j i = Fin 0 -> abs_PT j i = Fin 0.
Proof.
  intros Hx Hy. rewrite (abs_PT_finite j i 0 0 Hx Hy).
  f_equal. apply sqrt_sum_squares_zero. lra.
Qed.

Lemma fdiv_by_zero (x : R) : fdiv (Fin x) (Fin 0) = finf_scaled (Rsign x).
Proof. cbn. destruct (Req_dec_T 0 0); [reflexivity | contradiction]. Qed.

(** A slot with zero transverse momentum ([px = py = 0]): [phi] is the
    filled NaN of [arcsin (0/0)]; [eta] is filled only when [pz] is zero
    too.  For [pz <> 0] the quotient [pz / 0] is an infinity, which
    [fillna] leaves alone. *)
Lemma zero_pt_slot (j : jet) (i : nat) (pz : R) :
  (i < n_constituents)%nat ->
  PX j i = Fin 0 -> PY j i = Fin 0 -> PZ j i = Fin pz ->
  exists c,
    nth_error (rel_constituents (get_df_rel_row j)) i = Some c /\
    PHI c = Fin 0 /\
    (pz = 0 -> ETA c = Fin 0) /\
    (forall eta0, abs_ETA j 0 = Fin eta0 ->
                  (0 < pz -> ETA c = PInf) /\ (pz < 0 -> ETA c = NInf)).
Proof.
  intros Hi Hx Hy Hz.
  assert (Hphi : abs_PHI j i = NaN).
  { unfold abs_PHI.
    now rewrite (abs_PT_zero j i Hx Hy), Hy, fdiv_by_zero, Rsign_zero. }
  assert (Heta : abs_ETA j i = np_arcsinh (finf_scaled (Rsign pz))).
  { unfold abs_ETA. now rewrite (abs_PT_zero j i Hx Hy), Hz, fdiv_by_zero. }
  eexists. split; [now apply get_df_rel_row_slot |].
  cbn [PT ETA PHI]. rewrite Hphi, Heta.
  split; [reflexivity |]. split.
  - intros ->. rewrite Rsign_zero. reflexivity.
  - intros eta0 ->. split; intros Hs.
    + rewrite Rsign_pos by assumption. reflexivity.
    + rewrite Rsign_neg by assumption. reflexivity.
Qed.

(** C3: evaluation at the failing input.  Leading constituent
    [(E, px, py, pz) = (10, 3, 4, 0)], second constituent [(5, 0, 0, 5)]
    with zero transverse momentum and [pz = 5]: its relative [eta] is
    [+inf], not 0. *)
Theorem zero_pt_slot_infinite_eta :
  exists c,
    nth_error (rel_constituents
                 (get_df_rel_row (two_constituents (10, 3, 4, 0) (5, 0, 0, 5))))
              1 = Some c /\
    ETA c = PInf /\ PHI c = Fin 0.
Proof.
  set (j := two_constituents (10, 3, 4, 0) (5, 0, 0, 5)).
  destruct (zero_pt_slot j 1 5) as [c [Hc [Hphi [_ Heta]]]];
    try reflexivity.
  { unfold n_constituents. lia. }
  exists c. split; [exact Hc |]. split; [| exact Hphi].
  assert (H0 : abs_ETA j 0 = Fin (arcsinh (0 / sqrt (3 * 3 + 4 * 4)))).
  { unfold abs_ETA. rewrite (abs_PT_finite j 0 3 4) by reflexivity.
    cbn [PZ j two_constituents snd].
    rewrite fdiv_Fin; [reflexivity |].
    intros Hs. apply sqrt_sum_squares_zero in Hs. lra. }
  apply (Heta _ H0). lra.
Qed.

(** The example of the specification (second constituent all zero) does
    resolve to [eta = phi = 0]. *)
Lemma zero_padded_slot_example :
  exists c,
    nth_error (rel_constituents
                 (get_df_rel_row (two_constituents (10, 3, 4, 0) (5, 0, 0, 0))))
              1 = Some c /\
    ETA c = Fin 0 /\ PHI c = Fin 0.
Proof.
  set (j := two_constituents (10, 3, 4, 0) (5, 0, 0, 0)).
  destruct (zero_pt_slot j 1 0) as [c [Hc [Hphi [Heta _]]]];
    try reflexivity.
  { unfold n_constituents. lia. }
  exists c. auto.
Qed.

(** ** Rasteriser: what a cell holds *)

Section RasteriserFacts.
Context {T : Type} `{Scalar T}.

Lemma linspace_length (start stop : T) (num : nat) :
  length (linspace start stop num) = num.
Proof. unfold linspace. now rewrite length_map, length_seq. Qed.

Lemma searchsorted_right_le (a : list T) (v : T) :
  (searchsorted_right a v <= length a)%nat.
Proof. apply filter_length_le. Qed.

Lemma bin_index_le (edges : list T) (v : T) :
  (bin_index edges v <= length edges)%nat.
Proof.
  unfold bin_index. pose proof (searchsorted_right_le edges v).
  destruct (s_eq v _); lia.
Qed.

(** The flattened bin number always addresses the 42 x 42 array, so the
    accumulation never writes outside it. *)
Lemma ravel_index_bound (x y : T) : (ravel_index x y < nbin * nbin)%nat.
Proof.
  unfold ravel_index, nbin.
  pose proof (bin_index_le histogram_edges x) as Hx.
  pose proof (bin_index_le histogram_edges y) as Hy.
  unfold histogram_edges in Hx, Hy. rewrite linspace_length in Hx, Hy.
  fold (@histogram_edges T _) in Hx, Hy. lia.
Qed.

Lemma add_at_length (k : nat) (w : T) (out : list T) :
  length (add_at k w out) = length out.
Proof.
  revert k. induction out as [| c out IH]; intros [| k]; cbn; auto.
Qed.

Lemma nth_add_at (k i : nat) (w d : T) (out : list T) :
  (k < length out)%nat ->
  nth i (add_at k w out) d =
  if (k =? i)%nat then s_add (nth i out d) w else nth i out d.
Proof.
  revert k i. induction out as [| c out IH]; intros k i Hk; cbn in Hk.
  - lia.
  - destruct k as [| k], i as [| i]; cbn; try reflexivity.
    apply IH. lia.
Qed.

Lemma bincount_loop_nth (xyw : list (nat * T)) (out : list T) (i : nat) (d : T) :
  Forall (fun p => (fst p < length out)%nat) xyw ->
  nth i (bincount_loop xyw out) d =
  fold_left s_add
    (map snd (filter (fun p => (fst p =? i)%nat) xyw))
    (nth i out d).
Proof.
  revert out. induction xyw as [| [k w] rest IH]; intros out Hall.
  - reflexivity.
  - inversion Hall as [| ? ? Hk Hrest]; subst. cbn [fst] in Hk.
    cbn [bincount_loop filter fst].
    rewrite IH by (now rewrite add_at_length).
    rewrite nth_add_at by assumption.
    destruct (k =? i)%nat; reflexivity.
Qed.

Lemma bin_weights_combine (trf : list (constituent T)) (k : nat) :
  map snd
    (filter (fun p => (fst p =? k)%nat)
       (combine
          (map (fun p => ravel_index (fst p) (snd p))
             (combine (map ETA trf) (map PHI trf)))
          (map PT trf))) =
  bin_weights k trf.
Proof.
  unfold bin_weights. induction trf as [| c trf IH]; [reflexivity |].
  cbn [map combine filter fst snd].
  destruct (ravel_index (ETA c) (PHI c) =? k)%nat; cbn [map]; now rewrite IH.
Qed.

Lemma ravel_indices_bounded (trf : list (constituent T)) :
  Forall (fun p => (fst p < nbin * nbin)%nat)
    (combine
       (map (fun p => ravel_index (fst p) (snd p))
          (combine (map ETA trf) (map PHI trf)))
       (map PT trf)).
Proof.
  induction trf as [| c trf IH]; cbn [map combine]; constructor.
  - apply ravel_index_bound.
  - exact IH.
Qed.

(** Every cell of the image is the left-to-right sum, starting from 0,
    of the weights of the particles that fall into it. *)
Lemma jet_image_cells (trf : list (constituent T)) :
  jet_image trf =
  map (fun i =>
         map (fun j =>
                [fold_left s_add (bin_weights (i * nbin + j) trf) (s_of_Z 0)])
             (seq 1 40))
      (seq 1 40).
Proof.
  unfold jet_image, histogram2d, bincount. rewrite map_map.
  apply map_ext_in. intros i Hi. rewrite map_map.
  apply map_ext_in. intros j Hj.
  apply in_seq in Hi, Hj.
  rewrite bincount_loop_nth.
  - rewrite bin_weights_combine, nth_repeat_lt; [reflexivity |].
    unfold nbin. lia.
  - rewrite repeat_length. apply ravel_indices_bounded.
Qed.

Lemma bin_weights_permutation (k : nat) (trf trf' : list (constituent T)) :
  Permutation trf trf' ->
  Permutation (bin_weights k trf) (bin_weights k trf').
Proof.
  intros Hp. unfold bin_weights. apply Permutation_map.
  induction Hp as [| c l l' _ IH | c c' l | l l' l'' _ IH1 _ IH2].
  - constructor.
  - cbn [filter].
    destruct (ravel_index (ETA c) (PHI c) =? k)%nat;
      [now apply perm_skip | exact IH].
  - cbn [filter].
    destruct (ravel_index (ETA c) (PHI c) =? k)%nat,
             (ravel_index (ETA c') (PHI c') =? k)%nat;
      first [apply perm_swap | apply Permutation_refl].
  - now transitivity (filter (fun c => (ravel_index (ETA c) (PHI c) =? k)%nat) l').
Qed.

Lemma fold_left_add_permutation (l l' : list T) :
  (forall a b c, s_add a (s_add b c) = s_add (s_add a b) c) ->
  (forall a b, s_add a b = s_add b a) ->
  Permutation l l' ->
  forall acc, fold_left s_add l acc = fold_left s_add l' acc.
Proof.
  intros Hassoc Hcomm Hp.
  induction Hp as [| w l l' _ IH | w w' l | l l' l'' _ IH1 _ IH2]; intros acc.
  - reflexivity.
  - cbn. apply IH.
  - cbn. f_equal.
    now rewrite <- !Hassoc, (Hcomm w' w).
  - now rewrite IH1.
Qed.

(** C7 (as amended): reordering the particles reorders the weights summed
    into each cell, and nothing else; when the addition of the element
    type is associative and commutative (exact arithmetic) the two
    images are identical. *)
Theorem jet_image_permutation (trf trf' : list (constituent T)) :
  Permutation trf trf' ->
  (forall k, Permutation (bin_weights k trf) (bin_weights k trf')) /\
  ((forall a b c, s_add a (s_add b c) = s_add (s_add a b) c) ->
   (forall a b, s_add a b = s_add b a) ->
   jet_image trf = jet_image trf').
Proof.
  intros Hp. split.
  - intros k. now apply bin_weights_permutation.
  - intros Hassoc Hcomm. rewrite !jet_image_cells.
    apply map_ext. intros i. apply map_ext. intros j. f_equal.
    apply fold_left_add_permutation; try assumption.
    now apply bin_weights_permutation.
Qed.
End RasteriserFacts.

Lemma fadd_comm (a b : f64) : fadd a b = fadd b a.
Proof. destruct a, b; cbn; try reflexivity. f_equal. lra. Qed.

Lemma fadd_assoc (a b c : f64) : fadd a (fadd b c) = fadd (fadd a b) c.
Proof. destruct a, b, c; cbn; try reflexivity. f_equal. lra. Qed.

Lemma jet_image_permutation_witness :
  (forall k, Permutation (bin_weights k two_cells) (bin_weights k (rev two_cells))) /\
  jet_image two_cells = jet_image (rev two_cells).
Proof.
  destruct (jet_image_permutation two_cells (rev two_cells)
              (Permutation_rev two_cells)) as [Hw Himg].
  split; [exact Hw |].
  apply Himg; [exact fadd_assoc | exact fadd_comm].
Defined.

(** One particle of weight 1 at (0, 0) lands in the centre cell, and the
    image sums to 1 (binary64). *)
Example unit_centre_image :
  centre_cell (jet_image unit_centre) = 1%float /\
  binary64_total (jet_image unit_centre) = 1%float.
Proof. split; vm_compute; reflexivity. Qed.

(** C7 (as stated) fails in binary64: the centre cell is
    [(1e16 + 1) + 1 = 1e16] for one order and
    [(1 + 1) + 1e16 = 10000000000000002] for the other. *)
Lemma jet_image_order_binary64 :
  Permutation heavy_first heavy_last /\
  centre_cell (jet_image heavy_first) = 1e16%float /\
  centre_cell (jet_image heavy_last) = 10000000000000002%float /\
  jet_image heavy_first <> jet_image heavy_last.
Proof.
  split; [| split; [| split]].
  - unfold heavy_first, heavy_last.
    eapply perm_trans; [apply perm_swap | apply perm_skip, perm_swap].
  - vm_compute. reflexivity.
  - vm_compute. reflexivity.
  - intros Heq.
    apply (f_equal (fun img => PrimFloat.eqb (centre_cell img) 1e16%float)) in Heq.
    vm_compute in Heq. discriminate.
Qed.

(** ** Rasteriser on finite triples: bin edges and bin numbers *)

Lemma f64_histogram_edges :
  @histogram_edges f64 _ = map (fun k => Fin (edge_at k)) (seq 0 41).
Proof.
  unfold histogram_edges, linspace. apply map_ext. intros k.
  unfold edge_at. change (41 - 1)%nat with 40%nat.
  destruct (k =? 40)%nat; [reflexivity |].
  cbn [s_of_Z s_add s_sub s_mul s_div f64_scalar fsub fneg fadd].
  rewrite fdiv_Fin by (apply not_0_IZR; lia).
  reflexivity.
Qed.

Lemma edge_at_bounds (k : nat) : (k <= 40)%nat -> -1 <= edge_at k <= 1.
Proof.
  intros Hk. unfold edge_at.
  destruct (Nat.eqb_spec k 40) as [-> | Hne]; [lra |].
  assert (H0 : 0 <= IZR (Z.of_nat k)) by (apply IZR_le; lia).
  assert (H40 : IZR (Z.of_nat k) <= 40) by (apply IZR_le; lia).
  lra.
Qed.

Lemma edge_at_last : edge_at 40 = 1.
Proof. reflexivity. Qed.

Lemma seq_0_41 : seq 0 41 = 0%nat :: seq 1 39 ++ [40%nat].
Proof. reflexivity. Qed.

Lemma f64_edges_last (d : f64) :
  last (@histogram_edges f64 _) d = Fin 1.
Proof.
  rewrite f64_histogram_edges, seq_0_41.
  change (0%nat :: seq 1 39 ++ [40%nat]) with ((0%nat :: seq 1 39) ++ [40%nat]).
  rewrite map_app. cbn [map]. rewrite last_last. now rewrite edge_at_last.
Qed.

Lemma searchsorted_f64 (l : list nat) (v : R) :
  searchsorted_right (map (fun k => Fin (edge_at k)) l) (Fin v) =
  length (filter (fun k => if Rle_dec (edge_at k) v then true else false) l).
Proof.
  unfold searchsorted_right. induction l as [| k l IH]; [reflexivity |].
  cbn [map filter s_le f64_scalar f64_le] in *.
  destruct (Rle_dec (edge_at k) v); cbn [length]; now rewrite IH.
Qed.

Lemma filter_all_false {A : Type} (f : A -> bool) (l : list A) :
  (forall x, In x l -> f x = false) -> filter f l = [].
Proof.
  induction l as [| a l IH]; intros Hf; [reflexivity |].
  cbn. rewrite (Hf a) by (now left). apply IH. intros x Hx. apply Hf. now right.
Qed.

Lemma filter_all_true {A : Type} (f : A -> bool) (l : list A) :
  (forall x, In x l -> f x = true) -> filter f l = l.
Proof.
  induction l as [| a l IH]; intros Hf; [reflexivity |].
  cbn. rewrite (Hf a) by (now left). f_equal. apply IH.
  intros x Hx. apply Hf. now right.
Qed.

Lemma filter_length_first_last {A : Type} (f : A -> bool) (a z : A) (l : list A) :
  f a = true -> f z = false ->
  (1 <= length (filter f (a :: l ++ [z])) <= S (length l))%nat.
Proof.
  intros Ha Hz. cbn [filter]. rewrite Ha, filter_app. cbn [filter].
  rewrite Hz. cbn [length]. rewrite length_app. cbn [length].
  pose proof (filter_length_le f l). lia.
Qed.

Lemma edge_count_above (v : R) :
  1 <= v -> length (filter (edge_le v) (seq 0 41)) = 41%nat.
Proof.
  intros Hv. rewrite filter_all_true; [apply length_seq |].
  intros k Hk. apply in_seq in Hk. unfold edge_le.
  pose proof (edge_at_bounds k ltac:(lia)).
  destruct (Rle_dec (edge_at k) v); [reflexivity | lra].
Qed.

(** The bin number along one axis: outlier bin 0 below -1, outlier bin 41
    above 1, a core bin on [[-1, 1]] (both end points included). *)
Lemma f64_bin_index (v : R) :
  bin_index (@histogram_edges f64 _) (Fin v) =
  if Req_dec_T v 1 then 40%nat
  else length (filter (edge_le v) (seq 0 41)).
Proof.
  unfold bin_index. rewrite f64_edges_last.
  rewrite f64_histogram_edges, searchsorted_f64.
  fold (edge_le v).
  cbn [s_eq f64_scalar f64_eq].
  destruct (Req_dec_T v 1) as [-> | Hne]; [| reflexivity].
  now rewrite edge_count_above by lra.
Qed.

(** ** Sums over the core cells *)

Lemma Rsum_app (l1 l2 : list R) : Rsum (l1 ++ l2) = Rsum l1 + Rsum l2.
Proof.
  unfold Rsum. induction l1 as [| a l1 IH]; cbn; [lra |].
  cbn in IH. rewrite IH. lra.
Qed.

Lemma Rsum_map_plus {A : Type} (f g : A -> R) (l : list A) :
  Rsum (map (fun x => f x + g x) l) = Rsum (map f l) + Rsum (map g l).
Proof.
  unfold Rsum. induction l as [| a l IH]; cbn; [lra |].
  cbn in IH. rewrite IH. lra.
Qed.

Lemma Rsum_map_zero {A : Type} (l : list A) : Rsum (map (fun _ => 0) l) = 0.
Proof.
  unfold Rsum. induction l as [| a l IH]; cbn; [reflexivity |].
  cbn in IH. rewrite IH. lra.
Qed.

Lemma core_sum_plus (f g : nat -> nat -> R) :
  core_sum (fun i j => f i j + g i j) = core_sum f + core_sum g.
Proof.
  unfold core_sum. induction (seq 1 40) as [| i l IH] at 2 4 6.
  - cbn. lra.
  - cbn [flat_map]. rewrite !Rsum_app, IH, Rsum_map_plus. lra.
Qed.

Lemma core_sum_zero : core_sum (fun _ _ => 0) = 0.
Proof.
  unfold core_sum. induction (seq 1 40) as [| i l IH] at 2.
  - reflexivity.
  - cbn [flat_map]. rewrite Rsum_app, IH, Rsum_map_zero. lra.
Qed.

Lemma Rsum_cons (a : R) (l : list R) : Rsum (a :: l) = a + Rsum l.
Proof. reflexivity. Qed.

(** One indicator summed over a run of indices. *)
Lemma Rsum_indicator_seq (b : nat) (w : R) (start len : nat) :
  Rsum (map (fun j => if (b =? j)%nat then w else 0) (seq start len)) =
  if ((start <=? b) && (b <? start + len))%nat then w else 0.
Proof.
  revert start. induction len as [| len IH]; intros start.
  - cbn [seq map].
    destruct (Nat.leb_spec start b), (Nat.ltb_spec b (start + 0));
      cbn [andb]; try reflexivity; lia.
  - cbn [seq map]. rewrite Rsum_cons, IH.
    destruct (Nat.eqb_spec b start), (Nat.leb_spec (S start) b),
      (Nat.ltb_spec b (S start + len)), (Nat.leb_spec start b),
      (Nat.ltb_spec b (start + S len)); cbn [andb]; try lra; lia.
Qed.

Lemma Rsum_flat_map {A : Type} (f : A -> list R) (l : list A) :
  Rsum (flat_map f l) = Rsum (map (fun i => Rsum (f i)) l).
Proof.
  induction l as [| a l IH]; [reflexivity |].
  cbn [flat_map map]. rewrite Rsum_app, IH. reflexivity.
Qed.

Lemma leb_ltb_succ (b n : nat) : (b <? 1 + n)%nat = (b <=? n)%nat.
Proof.
  destruct (Nat.leb_spec b n), (Nat.ltb_spec b (1 + n)); reflexivity || lia.
Qed.

(** One flattened bin number summed over the core cells. *)
Lemma core_sum_indicator (bx by_ : nat) (w : R) :
  (by_ < nbin)%nat ->
  core_sum (fun i j => if (bx * nbin + by_ =? i * nbin + j)%nat then w else 0) =
  if core_bin bx && core_bin by_ then w else 0.
Proof.
  intros Hby. unfold core_sum. rewrite Rsum_flat_map.
  rewrite (map_ext_in _
    (fun i => if (bx =? i)%nat then (if core_bin by_ then w else 0) else 0)).
  - rewrite Rsum_indicator_seq, leb_ltb_succ. fold (core_bin bx).
    destruct (core_bin bx), (core_bin by_); reflexivity.
  - intros i _. destruct (Nat.eqb_spec bx i) as [-> | Hne].
    + rewrite (map_ext _ (fun j => if (by_ =? j)%nat then w else 0)).
      * rewrite Rsum_indicator_seq, leb_ltb_succ. reflexivity.
      * intros j. destruct (Nat.eqb_spec (i * nbin + by_) (i * nbin + j)),
          (Nat.eqb_spec by_ j); reflexivity || lia.
    + rewrite (map_ext_in _ (fun _ => 0)); [apply Rsum_map_zero |].
      intros j Hj. apply in_seq in Hj. unfold nbin in *.
      destruct (Nat.eqb_spec (bx * 42 + by_) (i * 42 + j)); [lia | reflexivity].
Qed.

Lemma concat_singletons {A B : Type} (g : A -> B) (l : list A) :
  concat (map (fun j => [g j]) l) = map g l.
Proof. induction l as [| a l IH]; cbn; [reflexivity | now rewrite IH]. Qed.

Lemma concat_concat_cells {A : Type} (g : nat -> nat -> A) (rows cols : list nat) :
  concat (concat (map (fun i => map (fun j => [g i j]) cols) rows)) =
  flat_map (fun i => map (g i) cols) rows.
Proof.
  induction rows as [| i rows IH]; [reflexivity |].
  cbn [map concat flat_map]. now rewrite concat_app, IH, concat_singletons.
Qed.

Lemma map_flat_map {A B C : Type} (f : B -> C) (g : A -> list B) (l : list A) :
  map f (flat_map g l) = flat_map (fun a => map f (g a)) l.
Proof.
  induction l as [| a l IH]; [reflexivity |].
  cbn [flat_map]. now rewrite map_app, IH.
Qed.

(** ** Chunked driver *)

Lemma firstn_chunk {A : Type} (a b : nat) (l : list A) :
  firstn a l ++ firstn b (skipn a l) = firstn (a + b) l.
Proof.
  revert l. induction a as [| a IH]; intros l; [reflexivity |].
  destruct l as [| x l]; cbn [firstn skipn Nat.add app].
  - now rewrite firstn_nil.
  - now rewrite IH.
Qed.

Lemma read_hdf_chunk (table : list jet) (chunksize start : nat) :
  read_hdf table start (start + chunksize) = firstn chunksize (skipn start table).
Proof. unfold read_hdf. f_equal. lia. Qed.

Lemma read_hdf_nonempty (table : list jet) (chunksize start : nat) :
  (0 < chunksize)%nat -> (start < length table)%nat ->
  read_hdf table start (start + chunksize) <> [].
Proof.
  intros Hc Hs. rewrite read_hdf_chunk. intros Hnil.
  apply (f_equal (@length jet)) in Hnil.
  rewrite length_firstn, length_skipn in Hnil. cbn in Hnil. lia.
Qed.

(** One chunk: images and labels of the same rows, in order. *)
Lemma preprocess_chunk_ok (table : list jet) (chunksize start : nat) :
  (0 < chunksize)%nat -> (start < length table)%nat ->
  preprocess_chunk table chunksize start =
  Some (map row_image (read_hdf table start (start + chunksize)),
        map is_signal_new (read_hdf table start (start + chunksize))).
Proof.
  intros Hc Hs. unfold preprocess_chunk, get_df_rel, get_img_array.
  pose proof (read_hdf_nonempty table chunksize start Hc Hs) as Hne.
  destruct (read_hdf table start (start + chunksize)) as [| r df];
    [contradiction |].
  cbn [map bind]. rewrite !map_map. reflexivity.
Qed.

(** An empty chunk makes [np.stack] raise. *)
Lemma preprocess_chunk_empty (table : list jet) (chunksize start : nat) :
  (length table <= start)%nat ->
  preprocess_chunk table chunksize start = None.
Proof.
  intros Hs. unfold preprocess_chunk. rewrite read_hdf_chunk.
  now rewrite skipn_all2, firstn_nil by assumption.
Qed.

Lemma preprocess_loop_ok (table : list jet) (chunksize : nat) (starts : list nat) :
  (0 < chunksize)%nat ->
  Forall (fun start => (start < length table)%nat) starts ->
  preprocess_loop table chunksize starts =
  Some (map (fun start => map row_image
                            (read_hdf table start (start + chunksize))) starts,
        map (fun start => map is_signal_new
                            (read_hdf table start (start + chunksize))) starts).
Proof.
  intros Hc Hall. induction Hall as [| start rest Hs _ IH]; [reflexivity |].
  cbn [preprocess_loop map]. rewrite preprocess_chunk_ok by assumption.
  cbn [bind]. rewrite IH. reflexivity.
Qed.

Lemma chunks_cover (table : list jet) (chunksize m : nat) :
  concat (map (fun start => read_hdf table start (start + chunksize))
            (map (fun k => (k * chunksize)%nat) (seq 0 m))) =
  firstn (m * chunksize) table.
Proof.
  induction m as [| m IH]; [reflexivity |].
  rewrite seq_S, !map_app, concat_app, IH. cbn [map concat Nat.add].
  rewrite app_nil_r, read_hdf_chunk, firstn_chunk. f_equal. lia.
Qed.

Lemma concat_map_chunks {A B : Type} (f : A -> B) (g : nat -> list A)
  (starts : list nat) :
  concat (map (fun start => map f (g start)) starts) =
  map f (concat (map g starts)).
Proof. now rewrite concat_map, map_map. Qed.

Lemma np_concatenate_nonempty {A : Type} (chunks : list (list A)) :
  (0 < length chunks)%nat -> np_concatenate chunks = Some (concat chunks).
Proof. destruct chunks; cbn; [lia | reflexivity]. Qed.

Lemma n_chunks_pos (n_examples chunksize : nat) :
  (0 < n_examples)%nat -> (0 < chunksize)%nat ->
  (0 < n_chunks n_examples chunksize)%nat.
Proof.
  intros Hn Hc. unfold n_chunks.
  apply Nat.div_str_pos. lia.
Qed.

(** When every chunk has a row, [preprocess] returns the images and the
    labels of the rows it read, in table order. *)
Lemma preprocess_produces (table : list jet) (n_examples chunksize : nat) :
  (0 < n_examples)%nat -> (0 < chunksize)%nat ->
  ((n_chunks n_examples chunksize - 1) * chunksize < length table)%nat ->
  preprocess table n_examples chunksize =
  Some (map row_image (rows_read table n_examples chunksize),
        map is_signal_new (rows_read table n_examples chunksize)).
Proof.
  intros Hn Hc Hlast.
  pose proof (n_chunks_pos n_examples chunksize Hn Hc) as Hm.
  unfold preprocess, py_range, rows_read. fold (n_chunks n_examples chunksize).
  set (m := n_chunks n_examples chunksize) in *.
  replace (chunksize =? 0)%nat with false
    by (symmetry; apply Nat.eqb_neq; lia).
  rewrite preprocess_loop_ok; [| assumption |].
  - cbn [bind fst snd].
    rewrite !np_concatenate_nonempty
      by (now rewrite !length_map, length_seq).
    cbn [bind].
    rewrite (concat_map_chunks row_image
               (fun start => read_hdf table start (start + chunksize))).
    rewrite (concat_map_chunks is_signal_new
               (fun start => read_hdf table start (start + chunksize))).
    rewrite chunks_cover. reflexivity.
  - apply Forall_forall. intros start Hin.
    apply in_map_iff in Hin as [k [<- Hk]]. apply in_seq in Hk.
    assert (k * chunksize <= (m - 1) * chunksize)%nat
      by (apply Nat.mul_le_mono_r; lia).
    lia.
Qed.

Lemma preprocess_loop_empty_chunk (table : list jet) (chunksize : nat)
  (starts : list nat) (start : nat) :
  In start starts -> (length table <= start)%nat ->
  preprocess_loop table chunksize starts = None.
Proof.
  intros Hin Hs. induction starts as [| s rest IH]; [contradiction |].
  cbn [preprocess_loop].
  destruct Hin as [-> | Hin].
  - now rewrite preprocess_chunk_empty.
  - rewrite (IH Hin). destruct (preprocess_chunk table chunksize s); reflexivity.
Qed.

(** In every other case an exception is raised. *)
Lemma preprocess_raises (table : list jet) (n_examples chunksize : nat) :
  n_examples = 0%nat \/ chunksize = 0%nat \/
  (length table <= (n_chunks n_examples chunksize - 1) * chunksize)%nat ->
  preprocess table n_examples chunksize = None.
Proof.
  intros Hcases. unfold preprocess.
  destruct (Nat.eqb_spec chunksize 0) as [_ | Hc]; [reflexivity |].
  destruct (Nat.eq_dec n_examples 0) as [-> | Hn].
  - unfold py_range. rewrite Nat.div_small by lia. reflexivity.
  - destruct Hcases as [H0 | [H0 | Hlast]]; try contradiction.
    pose proof (n_chunks_pos n_examples chunksize ltac:(lia) ltac:(lia)) as Hm.
    rewrite (preprocess_loop_empty_chunk table chunksize _
               ((n_chunks n_examples chunksize - 1) * chunksize));
      [reflexivity | | exact Hlast].
    unfold py_range. fold (n_chunks n_examples chunksize).
    apply in_map_iff. exists (n_chunks n_examples chunksize - 1)%nat.
    split; [reflexivity |]. apply in_seq. lia.
Qed.

(** C9: whatever [preprocess] returns, the images and the labels are those
    of the same rows in the same order: the i-th image is computed from the
    row whose label is the i-th label, and the labels are the input labels
    unchanged.  (It returns whenever every chunk has a row.) *)
Theorem preprocess_alignment (table : list jet) (n_examples chunksize : nat)
  (x : list (array3 f64)) (y : list Z) :
  preprocess table n_examples chunksize = Some (x, y) ->
  x = map row_image (rows_read table n_examples chunksize) /\
  y = map is_signal_new (rows_read table n_examples chunksize) /\
  length x = length y /\
  forall i r,
    nth_error (rows_read table n_examples chunksize) i = Some r ->
    nth_error x i = Some (row_image r) /\
    nth_error y i = Some (is_signal_new r).
Proof.
  intros Hp.
  destruct (Nat.eq_dec n_examples 0) as [Hn | Hn];
    [rewrite preprocess_raises in Hp by auto; discriminate |].
  destruct (Nat.eq_dec chunksize 0) as [Hc | Hc];
    [rewrite preprocess_raises in Hp by auto; discriminate |].
  destruct (le_lt_dec (length table)
              ((n_chunks n_examples chunksize - 1) * chunksize)) as [Hl | Hl];
    [rewrite preprocess_raises in Hp by auto; discriminate |].
  rewrite preprocess_produces in Hp by lia.
  injection Hp as <- <-.
  split; [reflexivity |]. split; [reflexivity |].
  split; [now rewrite !length_map |].
  intros i r Hr. split; now apply map_nth_error.
Qed.

Lemma preprocess_alignment_witness :
  preprocess three_jets 3 2 = Some (map row_image three_jets, [1%Z; 0%Z; 1%Z]) /\
  length (map row_image three_jets) = length [1%Z; 0%Z; 1%Z].
Proof.
  assert (Hp : preprocess three_jets 3 2 =
               Some (map row_image three_jets, [1%Z; 0%Z; 1%Z])).
  { rewrite preprocess_produces; [reflexivity | lia | lia | cbn; lia]. }
  split; [exact Hp |].
  exact (proj1 (proj2 (proj2 (preprocess_alignment three_jets 3 2 _ _ Hp)))).
Defined.

(** ** Re-quantising decoded codes, in exact arithmetic

    On [f64] (no rounding) decoding a code and encoding it again gives the
    code back.  The pre-conversion value is then exactly the integer [q],
    a discontinuity of the truncation, so this identity says nothing about
    binary64, where the rounding of [exp] and [log] decides on which side
    of [q] the value falls. *)
Lemma requantize_exact_arithmetic (q : Z) :
  (0 <= q <= 255)%Z -> transform (reverse_transform q) = q.
Proof.
  intros Hq. destruct (Z.eq_dec q 0) as [-> | Hne].
  - rewrite reverse_transform_zero. apply transform_zero.
  - rewrite reverse_transform_code by lia.
    rewrite transform_pos by apply exp_pos.
    rewrite code_value_exp.
    replace ((IZR (q - 1) / 255 * 15 + -10 + 10) * 17 + 1) with (IZR q)
      by (rewrite minus_IZR; lra).
    rewrite Ztrunc_IZR. now apply wrap_uint8_small.
Qed.


(* ================================================================== *)
(** * Part III: properties of the pipeline on binary64                 *)
(* ================================================================== *)

Section Binary64Facts.
Import SpecFloat FloatOps FloatAxioms.

(** ** The IEEE tests, [x - x] and [x / x] *)

Lemma is_nan_SF (x : float) : is_nan x = SFnan (Prim2SF x).
Proof.
  unfold is_nan. rewrite eqb_spec. unfold SFeqb, SFcompare, SFnan.
  destruct (Prim2SF x) as [s | s | | s m e]; try reflexivity.
  - destruct s; reflexivity.
  - rewrite Z.compare_refl, Pos.compare_cont_refl. destruct s; reflexivity.
Qed.

Lemma is_zero_SF (x : float) :
  is_zero x = match Prim2SF x with S754_zero _ => true | _ => false end.
Proof.
  unfold is_zero. rewrite eqb_spec. unfold SFeqb.
  change (Prim2SF 0%float) with (S754_zero false).
  destruct (Prim2SF x) as [s | s | | s m e]; try reflexivity;
    destruct s; reflexivity.
Qed.

Lemma is_infinity_SF (x : float) :
  is_infinity x = match Prim2SF x with S754_infinity _ => true | _ => false end.
Proof.
  unfold is_infinity. rewrite eqb_spec, abs_spec. unfold SFeqb.
  change (Prim2SF infinity) with (S754_infinity false).
  destruct (Prim2SF x) as [s | s | | s m e]; reflexivity.
Qed.

Lemma regular_SF (x : float) :
  Binary64.regular x =
  match Prim2SF x with S754_finite _ _ _ => true | _ => false end.
Proof.
  unfold Binary64.regular. rewrite is_nan_SF, is_zero_SF, is_infinity_SF.
  destruct (Prim2SF x); reflexivity.
Qed.

(** [x - x] is [+0] for a finite [x] and NaN otherwise. *)
Lemma SFsub_self (a : spec_float) :
  SF64sub a a = S754_zero false \/ SF64sub a a = S754_nan.
Proof.
  destruct a as [s | s | | s m e]; unfold SF64sub, SFsub.
  - left. destruct s; reflexivity.
  - right. destruct s; reflexivity.
  - right. reflexivity.
  - left. rewrite Z.min_id. unfold shl_align. rewrite Z.sub_diag. cbn [fst].
    reflexivity.
Qed.

Lemma fillna0_sub_self (x : float) : Binary64.fillna0 (x - x)%float = 0%float.
Proof.
  assert (H : (x - x)%float = 0%float \/ (x - x)%float = nan).
  { destruct (SFsub_self (Prim2SF x)) as [H | H];
      rewrite <- sub_spec in H; [left | right];
      apply Prim2SF_inj; rewrite H; reflexivity. }
  destruct H as [-> | ->]; reflexivity.
Qed.

Lemma new_location_zero (n : Z) : new_location n 0 = loc_Exact.
Proof.
  unfold new_location, new_location_even, new_location_odd.
  destruct (Z.even n); reflexivity.
Qed.

(** A finite nonzero number divided by itself: the quotient of the
    mantissas is exactly [2^53], which rounds to 1. *)
Lemma SFdiv_self (s : bool) (m : positive) (e : Z) :
  SF64div (S754_finite s m e) (S754_finite s m e)
  = S754_finite false 4503599627370496 (-52).
Proof.
  unfold SF64div, SFdiv, SFdiv_core_binary.
  rewrite !Z.sub_diag.
  change (Z.min (fexp prec emax 0) 0) with (-53)%Z.
  change (0 - -53)%Z with 53%Z.
  cbv beta iota zeta.
  rewrite Z.shiftl_mul_pow2 by lia.
  rewrite (Z.mul_comm (Z.pos m)).
  assert (Hd : Z.div_eucl (2 ^ 53 * Z.pos m) (Z.pos m) = ((2 ^ 53)%Z, 0%Z)).
  { pose proof (Z.div_eucl_eq (2 ^ 53 * Z.pos m) (Z.pos m) ltac:(lia)) as Heq.
    pose proof (Z.mod_pos_bound (2 ^ 53 * Z.pos m) (Z.pos m) ltac:(lia)) as Hb.
    unfold Z.modulo in Hb.
    destruct (Z.div_eucl (2 ^ 53 * Z.pos m) (Z.pos m)) as [q r].
    assert (q = (2 ^ 53)%Z) by nia.
    subst q. f_equal. lia. }
  match goal with
  | |- context [?f (2 ^ 53 * Z.pos m)%Z (Z.pos m)] =>
      change (f (2 ^ 53 * Z.pos m)%Z (Z.pos m))
        with (Z.div_eucl (2 ^ 53 * Z.pos m) (Z.pos m))
  end.
  rewrite Hd. rewrite new_location_zero.
  destruct s; reflexivity.
Qed.

Lemma fillna0_div_self (x : float) :
  Binary64.fillna0 (x / x)%float =
  if Binary64.regular x then 1%float else 0%float.
Proof.
  rewrite regular_SF.
  destruct (Prim2SF x) as [s | s | | s m e] eqn:Hx.
  1-3: assert (H : (x / x)%float = nan)
    by (apply Prim2SF_inj; rewrite div_spec, Hx; try destruct s; reflexivity);
    rewrite H; reflexivity.
  assert (H : (x / x)%float = 1%float)
    by (apply Prim2SF_inj; rewrite div_spec, Hx, SFdiv_self; reflexivity).
  rewrite H. reflexivity.
Qed.

(** ** The order of binary64 numbers *)

Lemma digits2_pos_size (m : positive) : digits2_pos m = Pos.size m.
Proof. induction m as [m IH | m IH |]; cbn; now rewrite ?IH. Qed.

(** A canonical mantissa has at most 53 bits, and exactly 53 unless the
    exponent is the smallest one. *)
Lemma bounded_mantissa (m : positive) (e : Z) :
  bounded prec emax m e = true ->
  (Z.pos m < 2 ^ 53)%Z /\ ((2 ^ 52 <= Z.pos m)%Z \/ e = (-1074)%Z).
Proof.
  unfold bounded, canonical_mantissa, fexp.
  change (SpecFloat.emin prec emax) with (-1074)%Z. change prec with 53%Z.
  rewrite andb_true_iff, Z.eqb_eq, digits2_pos_size. intros [Hc _].
  pose proof (Pos.size_gt m) as Hgt. pose proof (Pos.size_le m) as Hle.
  apply Pos2Z.pos_lt_pos in Hgt. apply Pos2Z.pos_le_pos in Hle.
  rewrite Pos2Z.inj_pow in Hgt, Hle. change (Z.pos 2) with 2%Z in Hgt, Hle.
  change (Z.pos m~0) with (2 * Z.pos m)%Z in Hle.
  set (d := Z.pos (Pos.size m)) in *.
  assert (Hd : (0 < d)%Z) by (unfold d; lia).
  assert (Hd53 : (d <= 53)%Z) by lia.
  split.
  - assert (2 ^ d <= 2 ^ 53)%Z by (apply Z.pow_le_mono_r; lia). lia.
  - destruct (Z.eq_dec e (-1074)) as [He | He]; [now right | left].
    assert (H53 : d = 53%Z) by lia.
    replace (2 ^ d)%Z with (2 * 2 ^ 52)%Z in Hle
      by (subst d; rewrite H53; reflexivity).
    lia.
Qed.

Lemma bounded_exponent (m : positive) (e : Z) :
  bounded prec emax m e = true -> (-1074 <= e <= 971)%Z.
Proof.
  unfold bounded, canonical_mantissa, fexp.
  change (SpecFloat.emin prec emax) with (-1074)%Z.
  change (emax - prec)%Z with 971%Z.
  rewrite andb_true_iff, Z.eqb_eq, Z.leb_le. lia.
Qed.

Lemma powerRZ_2_pos (e : Z) : 0 < powerRZ 2 e.
Proof. apply powerRZ_lt. lra. Qed.

Lemma powerRZ_2_nonneg_exp (k : Z) : (0 <= k)%Z -> powerRZ 2 k = IZR (2 ^ k).
Proof.
  intros Hk. destruct k as [| p | p]; [reflexivity | | lia].
  change (2 ^ Z.pos p)%Z with (Z.pow_pos 2 p).
  now rewrite Zpower_pos_powerRZ.
Qed.

Lemma powerRZ_2_split (e k : Z) : powerRZ 2 (e + k) = powerRZ 2 e * powerRZ 2 k.
Proof. apply powerRZ_add. lra. Qed.

(** A smaller exponent means a smaller magnitude, for canonical
    mantissas. *)
Lemma magnitude_lt_exponent (m1 m2 : positive) (e1 e2 : Z) :
  bounded prec emax m1 e1 = true -> bounded prec emax m2 e2 = true ->
  (e1 < e2)%Z ->
  IZR (Z.pos m1) * powerRZ 2 e1 < IZR (Z.pos m2) * powerRZ 2 e2.
Proof.
  intros H1 H2 He.
  pose proof (bounded_mantissa m1 e1 H1) as [Hm1 _].
  pose proof (bounded_mantissa m2 e2 H2) as [_ Hn2].
  pose proof (bounded_exponent m1 e1 H1) as He1.
  destruct Hn2 as [Hn2 | Hn2]; [| lia].
  replace e2 with (e1 + (e2 - e1))%Z by lia.
  rewrite powerRZ_2_split, (powerRZ_2_nonneg_exp (e2 - e1)) by lia.
  pose proof (powerRZ_2_pos e1) as Hp.
  assert (Hk : (2 <= 2 ^ (e2 - e1))%Z).
  { change 2%Z with (2 ^ 1)%Z at 1. apply Z.pow_le_mono_r; lia. }
  assert (Hz : (Z.pos m1 < Z.pos m2 * 2 ^ (e2 - e1))%Z) by nia.
  apply IZR_lt in Hz. rewrite mult_IZR in Hz.
  nra.
Qed.

(** Finite magnitudes stay below [2 ^ 1024]. *)
Lemma magnitude_lt_overflow (m : positive) (e : Z) :
  bounded prec emax m e = true ->
  0 < IZR (Z.pos m) * powerRZ 2 e < IZR (2 ^ 1024).
Proof.
  intros Hb.
  pose proof (bounded_mantissa m e Hb) as [Hm _].
  pose proof (bounded_exponent m e Hb) as He.
  pose proof (powerRZ_2_pos e) as Hp.
  pose proof (IZR_lt 0 (Z.pos m) ltac:(lia)) as Hm0.
  split; [nra |].
  assert (H971 : powerRZ 2 971 = powerRZ 2 e * IZR (2 ^ (971 - e))).
  { replace 971%Z with (e + (971 - e))%Z at 1 by lia.
    rewrite powerRZ_2_split, (powerRZ_2_nonneg_exp (971 - e)) by lia.
    reflexivity. }
  assert (Hk : 1 <= IZR (2 ^ (971 - e))).
  { apply IZR_le.
    assert (0 < 2 ^ (971 - e))%Z by (apply Z.pow_pos_nonneg; lia). lia. }
  assert (Hm53 : IZR (Z.pos m) < IZR (2 ^ 53)) by now apply IZR_lt.
  replace (IZR (2 ^ 1024)) with (IZR (2 ^ 53) * powerRZ 2 971).
  - rewrite H971. nra.
  - rewrite (powerRZ_2_nonneg_exp 971), <- mult_IZR by lia. f_equal.
Qed.

(** [SFcompare] on valid numbers is the order of their positions on the
    extended real line; it is undefined exactly when one of them is NaN. *)
Lemma SFcompare_order (a b : spec_float) :
  valid_binary a = true -> valid_binary b = true ->
  match SFcompare a b with
  | Some Lt => SF2X a < SF2X b
  | Some Eq => SF2X a = SF2X b
  | Some Gt => SF2X b < SF2X a
  | None => a = S754_nan \/ b = S754_nan
  end.
Proof.
  intros Va Vb.
  assert (Hbig : 0 < IZR (2 ^ 1024)) by (apply IZR_lt; reflexivity).
  assert (Hfin : forall s m e, bounded prec emax m e = true ->
            - IZR (2 ^ 1024) < SF2R (S754_finite s m e) < IZR (2 ^ 1024)).
  { intros s m e Hb. pose proof (magnitude_lt_overflow m e Hb).
    cbn [SF2R]. destruct s; cbn [cond_Zopp]; rewrite ?opp_IZR; nra. }
  destruct a as [sa | sa | | sa ma ea]; destruct b as [sb | sb | | sb mb eb];
    cbn [SFcompare SF2X]; try (now left); try (now right).
  - reflexivity.
  - destruct sb; cbn [cond_Zopp SF2R]; rewrite ?opp_IZR; lra.
  - pose proof (magnitude_lt_overflow mb eb Vb).
    destruct sb; cbn [cond_Zopp SF2R]; rewrite ?opp_IZR; nra.
  - destruct sa; cbn [cond_Zopp SF2R]; rewrite ?opp_IZR; lra.
  - destruct sa, sb; cbn [cond_Zopp]; rewrite ?opp_IZR; lra.
  - pose proof (Hfin sb mb eb Vb).
    destruct sa; cbn [cond_Zopp]; rewrite ?opp_IZR; lra.
  - pose proof (magnitude_lt_overflow ma ea Va).
    destruct sa; cbn [cond_Zopp SF2R]; rewrite ?opp_IZR; nra.
  - pose proof (Hfin sa ma ea Va).
    destruct sb; cbn [cond_Zopp]; rewrite ?opp_IZR; lra.
  - cbn [valid_binary] in Va, Vb. cbn [SF2R].
    pose proof (powerRZ_2_pos ea). pose proof (IZR_lt 0 (Z.pos ma) ltac:(lia)).
    pose proof (powerRZ_2_pos eb). pose proof (IZR_lt 0 (Z.pos mb) ltac:(lia)).
    assert (Hcmp : forall c, Pos.compare_cont Eq ma mb = c -> ea = eb ->
              match c with
              | Lt => IZR (Z.pos ma) * powerRZ 2 ea < IZR (Z.pos mb) * powerRZ 2 eb
              | Eq => IZR (Z.pos ma) * powerRZ 2 ea = IZR (Z.pos mb) * powerRZ 2 eb
              | Gt => IZR (Z.pos mb) * powerRZ 2 eb < IZR (Z.pos ma) * powerRZ 2 ea
              end).
    { intros c Hc ->.
      change (Pos.compare_cont Eq ma mb) with (Pos.compare ma mb) in Hc.
      destruct c.
      - apply Pos.compare_eq in Hc. now subst.
      - apply Pos.compare_lt_iff in Hc. apply Pos2Z.pos_lt_pos in Hc.
        apply IZR_lt in Hc. nra.
      - apply Pos.compare_gt_iff in Hc. apply Pos2Z.pos_lt_pos in Hc.
        apply IZR_lt in Hc. nra. }
    destruct sa, sb; cbn [cond_Zopp]; rewrite ?opp_IZR; try nra.
    + destruct (Z.compare_spec ea eb) as [He | He | He].
      * specialize (Hcmp _ eq_refl He).
        destruct (Pos.compare_cont Eq ma mb); cbn [CompOpp]; nra.
      * pose proof (magnitude_lt_exponent _ _ _ _ Va Vb He). nra.
      * pose proof (magnitude_lt_exponent _ _ _ _ Vb Va He). nra.
    + destruct (Z.compare_spec ea eb) as [He | He | He].
      * specialize (Hcmp _ eq_refl He).
        destruct (Pos.compare_cont Eq ma mb); nra.
      * pose proof (magnitude_lt_exponent _ _ _ _ Va Vb He). nra.
      * pose proof (magnitude_lt_exponent _ _ _ _ Vb Va He). nra.
Qed.

Lemma SFcompare_defined (a b : spec_float) (c : comparison) :
  SFcompare a b = Some c -> SFnan a = false /\ SFnan b = false.
Proof. destruct a, b; cbn; intros Hc; now try discriminate. Qed.

Lemma SFcompare_cases (a b : spec_float) :
  valid_binary a = true -> valid_binary b = true ->
  (SFcompare a b = Some Lt /\ SFnan a = false /\ SFnan b = false /\
   SF2X a < SF2X b) \/
  (SFcompare a b = Some Eq /\ SFnan a = false /\ SFnan b = false /\
   SF2X a = SF2X b) \/
  (SFcompare a b = Some Gt /\ SFnan a = false /\ SFnan b = false /\
   SF2X b < SF2X a) \/
  (SFcompare a b = None /\ (SFnan a = true \/ SFnan b = true)).
Proof.
  intros Va Vb. pose proof (SFcompare_order a b Va Vb) as Ho.
  destruct (SFcompare a b) as [[ | | ] | ] eqn:Hc.
  - destruct (SFcompare_defined a b _ Hc). right; left. auto.
  - destruct (SFcompare_defined a b _ Hc). left. auto.
  - destruct (SFcompare_defined a b _ Hc). right; right; left. auto.
  - right; right; right. split; [reflexivity |].
    destruct Ho as [-> | ->]; auto.
Qed.

(** The comparisons of binary64, [<], [<=] and [==], are those of the
    positions on the extended real line, and false when an operand is
    NaN. *)
Lemma ltb_order (x y : float) :
  (x <? y)%float = true <->
  is_nan x = false /\ is_nan y = false /\ B2X x < B2X y.
Proof.
  rewrite ltb_spec, !is_nan_SF. unfold SFltb, B2X.
  destruct (SFcompare_cases (Prim2SF x) (Prim2SF y)
              (Prim2SF_valid x) (Prim2SF_valid y))
    as [(-> & Hx & Hy & Ho) | [(-> & Hx & Hy & Ho)
       | [(-> & Hx & Hy & Ho) | (-> & Hn)]]].
  - tauto.
  - split; [discriminate | intros (_ & _ & Hlt); lra].
  - split; [discriminate | intros (_ & _ & Hlt); lra].
  - split; [discriminate | intros (Hx & Hy & _); destruct Hn; congruence].
Qed.

Lemma leb_order (x y : float) :
  (x <=? y)%float = true <->
  is_nan x = false /\ is_nan y = false /\ B2X x <= B2X y.
Proof.
  rewrite leb_spec, !is_nan_SF. unfold SFleb, B2X.
  destruct (SFcompare_cases (Prim2SF x) (Prim2SF y)
              (Prim2SF_valid x) (Prim2SF_valid y))
    as [(-> & Hx & Hy & Ho) | [(-> & Hx & Hy & Ho)
       | [(-> & Hx & Hy & Ho) | (-> & Hn)]]].
  - split; [intros _ | reflexivity]. repeat split; auto; lra.
  - split; [intros _ | reflexivity]. repeat split; auto; lra.
  - split; [discriminate | intros (_ & _ & Hlt); lra].
  - split; [discriminate | intros (Hx & Hy & _); destruct Hn; congruence].
Qed.

Lemma eqb_order (x y : float) :
  (x =? y)%float = true <->
  is_nan x = false /\ is_nan y = false /\ B2X x = B2X y.
Proof.
  rewrite eqb_spec, !is_nan_SF. unfold SFeqb, B2X.
  destruct (SFcompare_cases (Prim2SF x) (Prim2SF y)
              (Prim2SF_valid x) (Prim2SF_valid y))
    as [(-> & Hx & Hy & Ho) | [(-> & Hx & Hy & Ho)
       | [(-> & Hx & Hy & Ho) | (-> & Hn)]]].
  - split; [discriminate | intros (_ & _ & Hlt); lra].
  - tauto.
  - split; [discriminate | intros (_ & _ & Hlt); lra].
  - split; [discriminate | intros (Hx & Hy & _); destruct Hn; congruence].
Qed.

(** A number strictly between the infinities is finite. *)
Lemma B2X_finite (x : float) :
  - IZR (2 ^ 1024) < B2X x < IZR (2 ^ 1024) -> B2X x = B2R x.
Proof.
  unfold B2X, B2R. destruct (Prim2SF x) as [s | s | | s m e]; try reflexivity.
  cbn [SF2X]. destruct s; cbn [cond_Zopp]; rewrite ?opp_IZR; lra.
Qed.

Lemma overflow_threshold_large : 256 < IZR (2 ^ 1024).
Proof. apply IZR_lt. reflexivity. Qed.

Lemma B2X_window (x : float) (a b : R) :
  -256 <= a -> b <= 256 -> a < B2X x < b -> B2X x = B2R x.
Proof.
  intros Ha Hb Hx. apply B2X_finite.
  pose proof overflow_threshold_large as Hbig.
  set (big := IZR (2 ^ 1024)) in *. lra.
Qed.

Lemma SF2R_negative_exponent (s : bool) (m k : positive) :
  SF2R (S754_finite s m (Z.neg k)) =
  IZR (cond_Zopp s (Z.pos m)) / IZR (2 ^ Z.pos k).
Proof.
  cbn [SF2R]. change (Z.neg k) with (Z.opp (Z.pos k)).
  rewrite powerRZ_neg', (powerRZ_2_nonneg_exp (Z.pos k)) by lia.
  reflexivity.
Qed.

Lemma B2X_minus_one : B2X (-1)%float = -1.
Proof.
  unfold B2X.
  change (Prim2SF (-1)%float) with (S754_finite true 4503599627370496 (-52)).
  cbn [SF2X]. rewrite SF2R_negative_exponent. cbn [cond_Zopp].
  change (2 ^ 52)%Z with 4503599627370496%Z. cbn [Z.opp]. lra.
Qed.

Lemma B2X_one : B2X 1%float = 1.
Proof.
  unfold B2X.
  change (Prim2SF 1%float) with (S754_finite false 4503599627370496 (-52)).
  cbn [SF2X]. rewrite SF2R_negative_exponent. cbn [cond_Zopp].
  change (2 ^ 52)%Z with 4503599627370496%Z. lra.
Qed.

Lemma B2X_256 : B2X 256%float = 256.
Proof.
  unfold B2X.
  change (Prim2SF 256%float) with (S754_finite false 4503599627370496 (-44)).
  cbn [SF2X]. rewrite SF2R_negative_exponent. cbn [cond_Zopp].
  change (2 ^ 44)%Z with 17592186044416%Z. lra.
Qed.

(** ** Truncation toward zero *)

Lemma shiftl_floor (m : positive) (e : Z) :
  Z.shiftl (Z.pos m) e = Zfloor (IZR (Z.pos m) * powerRZ 2 e).
Proof.
  symmetry. destruct (Z.le_gt_cases 0 e) as [He | He].
  - rewrite Z.shiftl_mul_pow2, powerRZ_2_nonneg_exp, <- mult_IZR by assumption.
    apply ZfloorZ.
  - replace e with (- (- e))%Z at 2 by lia.
    rewrite Z.shiftl_opp_r, Z.shiftr_div_pow2 by lia.
    replace e with (- (- e))%Z at 1 by lia.
    rewrite powerRZ_neg', powerRZ_2_nonneg_exp by lia.
    set (k := (2 ^ (- e))%Z).
    assert (Hk : (0 < k)%Z) by (apply Z.pow_pos_nonneg; lia).
    pose proof (Z.div_mod (Z.pos m) k ltac:(lia)) as Hdm.
    pose proof (Z.mod_pos_bound (Z.pos m) k Hk) as Hb.
    apply Zfloor_eq.
    assert (HkR : 0 < IZR k) by now apply IZR_lt.
    assert (Hm : IZR (Z.pos m) = IZR k * IZR (Z.pos m / k) + IZR (Z.pos m mod k)).
    { rewrite <- mult_IZR, <- plus_IZR. now f_equal. }
    assert (Hr0 : 0 <= IZR (Z.pos m mod k)) by (apply IZR_le; lia).
    assert (Hr1 : IZR (Z.pos m mod k) < IZR k) by (apply IZR_lt; lia).
    rewrite Hm. split.
    + apply Rmult_le_reg_l with (IZR k); [assumption |].
      rewrite <- Rmult_assoc, (Rmult_comm (IZR k) (_ + _)), Rmult_assoc,
        Rinv_r, Rmult_1_r by lra. lra.
    + apply Rmult_lt_reg_l with (IZR k); [assumption |].
      rewrite <- Rmult_assoc, (Rmult_comm (IZR k) (_ + _)), Rmult_assoc,
        Rinv_r, Rmult_1_r by lra. lra.
Qed.

(** The truncation computed on mantissa and exponent is the truncation
    of the exact value. *)
Lemma float_trunc_exact (x : float) :
  Binary64.float_trunc x = Ztrunc (B2R x).
Proof.
  unfold Binary64.float_trunc, B2R, Ztrunc.
  destruct (Prim2SF x) as [s | s | | s m e]; cbn [SF2R];
    try (destruct (Rle_dec 0 0); [symmetry; apply (ZfloorZ 0) | lra]).
  pose proof (powerRZ_2_pos e). pose proof (IZR_lt 0 (Z.pos m) ltac:(lia)).
  rewrite shiftl_floor.
  destruct s; cbn [cond_Zopp].
  - rewrite opp_IZR.
    destruct (Rle_dec 0 (- IZR (Z.pos m) * powerRZ 2 e)) as [Hs | Hs]; [nra |].
    rewrite Ropp_mult_distr_l_reverse. now rewrite ZceilN.
  - destruct (Rle_dec 0 (IZR (Z.pos m) * powerRZ 2 e)) as [Hs | Hs];
      [reflexivity | nra].
Qed.

(** A value in the window [(-1, 256)] is converted by plain truncation:
    nothing wraps. *)
Lemma astype_uint8_window (v : float) :
  (-1 <? v)%float = true -> (v <? 256)%float = true ->
  Binary64.astype_uint8 v = Ztrunc (B2R v) /\
  B2X v = B2R v /\ -1 < B2R v < 256 /\
  (0 <= Binary64.astype_uint8 v <= 255)%Z.
Proof.
  rewrite !ltb_order, B2X_minus_one, B2X_256.
  intros (_ & _ & Hlo) (_ & _ & Hhi).
  assert (Hfin : B2X v = B2R v) by (apply (B2X_window v (-1) 256); lra).
  rewrite Hfin in Hlo, Hhi.
  assert (Ht : (0 <= Ztrunc (B2R v) <= 255)%Z).
  { unfold Ztrunc. destruct (Rle_dec 0 (B2R v)) as [Hs | Hs].
    - pose proof (Zfloor_bound (B2R v)) as [Hf1 Hf2].
      split.
      + apply Zfloor_lub. exact Hs.
      + apply Z.lt_succ_r. apply lt_IZR. rewrite succ_IZR. lra.
    - assert (Hc : Zceil (B2R v) = 0%Z) by (apply Zceil_eq; lra).
      rewrite Hc. lia. }
  unfold Binary64.astype_uint8.
  rewrite float_trunc_exact, wrap_uint8_small by exact Ht.
  auto.
Qed.

(** ** The input [np.exp(5.0)]

    The binary64 number 148.4131591025766 lies in the real interval
    [[e^-10, e^5]], and its logarithm is nearer to 5 than to any other
    binary64 number.  Bounds on [e^-1] come from the alternating series
    [sum (-1)^i / i!], whose partial sums are computed as fractions
    [alt_num n / factZ n]. *)

Lemma factZ_pos (n : nat) : (0 < factZ n)%Z.
Proof. induction n as [| n IH]; [reflexivity | cbn [factZ]; lia]. Qed.

Lemma INR_fact_factZ (n : nat) : INR (fact n) = IZR (factZ n).
Proof.
  induction n as [| n IH]; [reflexivity |].
  rewrite fact_simpl, mult_INR, IH. cbn [factZ].
  rewrite mult_IZR, <- INR_IZR_INZ. reflexivity.
Qed.

Lemma pow_minus_one (n : nat) : (-1) ^ n = if Nat.even n then 1 else -1.
Proof.
  induction n as [| n IH]; [reflexivity |].
  rewrite Nat.even_succ, <- Nat.negb_even. cbn [pow]. rewrite IH.
  destruct (Nat.even n); cbn [negb]; lra.
Qed.

Lemma alt_sum (n : nat) :
  sum_f_R0 (tg_alt (fun i => / INR (fact i))) n =
  IZR (alt_num n) / IZR (factZ n).
Proof.
  induction n as [| n IH].
  - cbn. unfold tg_alt. cbn. lra.
  - cbn [sum_f_R0]. rewrite IH. unfold tg_alt.
    rewrite pow_minus_one, !INR_fact_factZ.
    pose proof (factZ_pos n) as Hn. apply IZR_lt in Hn.
    assert (Hs : 0 < IZR (Z.of_nat (S n))) by (apply IZR_lt; lia).
    cbn [factZ alt_num]. rewrite plus_IZR, !mult_IZR.
    destruct (Nat.even (S n)); field; lra.
Qed.

Lemma exp_minus_one_bounds (N : nat) :
  IZR (alt_num (S (2 * N))) / IZR (factZ (S (2 * N))) <= exp (-1) <=
  IZR (alt_num (2 * N)) / IZR (factZ (2 * N)).
Proof.
  rewrite <- !alt_sum.
  apply alternated_series_ineq.
  - intros n. apply Rinv_le_contravar.
    + apply INR_fact_lt_0.
    + apply le_INR, fact_le. lia.
  - intros eps Heps. destruct (cv_speed_pow_fact 1 eps Heps) as [n0 Hn0].
    exists n0. intros n Hn. specialize (Hn0 n Hn).
    rewrite pow1 in Hn0. unfold Rdiv in Hn0. now rewrite Rmult_1_l in Hn0.
  - unfold exp. destruct (exist_exp (-1)) as [l Hl]. cbn [proj1_sig].
    intros eps Heps. destruct (Hl eps Heps) as [n0 Hn0].
    exists n0. intros n Hn. specialize (Hn0 n Hn).
    erewrite sum_eq; [exact Hn0 |].
    intros i _. unfold tg_alt. apply Rmult_comm.
Qed.

Lemma exp_minus_five : exp (-5) = exp (-1) ^ 5.
Proof.
  replace (-5) with (-1 + (-1 + (-1 + (-1 + -1)))) by lra.
  rewrite !exp_plus. cbn [pow]. lra.
Qed.

Lemma exp_five_inverse : exp 5 * exp (-5) = 1.
Proof. rewrite <- exp_plus. replace (5 + -5) with 0 by lra. apply exp_0. Qed.

Lemma range_top_double_value :
  B2R range_top_double = IZR 5221823812744079 / IZR (2 ^ 45).
Proof.
  unfold B2R.
  change (Prim2SF range_top_double)
    with (S754_finite false 5221823812744079 (-45)).
  now rewrite SF2R_negative_exponent.
Qed.

Lemma quotient_power_le_one (x p u v : R) :
  0 < p -> 0 < v -> x * u ^ 5 <= p * v ^ 5 -> x / p * (u / v) ^ 5 <= 1.
Proof.
  intros Hp Hv H.
  assert (Hv5 : 0 < v ^ 5) by now apply pow_lt.
  apply Rmult_le_reg_r with (p * v ^ 5); [nra |].
  replace (x / p * (u / v) ^ 5 * (p * v ^ 5)) with (x * u ^ 5) by (field; lra).
  lra.
Qed.

Lemma quotient_power_ge_one (x p u v : R) :
  0 < p -> 0 < v -> p * v ^ 5 <= x * u ^ 5 -> 1 <= x / p * (u / v) ^ 5.
Proof.
  intros Hp Hv H.
  assert (Hv5 : 0 < v ^ 5) by now apply pow_lt.
  apply Rmult_le_reg_r with (p * v ^ 5); [nra |].
  replace (x / p * (u / v) ^ 5 * (p * v ^ 5)) with (x * u ^ 5) by (field; lra).
  lra.
Qed.

Lemma range_top_double_pos : 1 <= B2R range_top_double.
Proof.
  rewrite range_top_double_value.
  assert (H45 : 0 < IZR (2 ^ 45)) by (apply IZR_lt; reflexivity).
  assert (H2 : IZR (2 ^ 45) <= IZR 5221823812744079)
    by (apply IZR_le; vm_compute; discriminate).
  apply Rmult_le_reg_r with (IZR (2 ^ 45)); [assumption |].
  unfold Rdiv. rewrite Rmult_assoc, Rinv_l by lra. lra.
Qed.

(** [np.exp(5.0)] is a point of the range [[exp lo, exp hi]]. *)
Lemma range_top_double_in_range :
  exp (-10) <= B2R range_top_double <= exp 5.
Proof.
  pose proof range_top_double_pos as Hx1.
  split.
  - assert (H1 : exp (-10) < 1) by (rewrite <- exp_0; apply exp_increasing; lra).
    lra.
  - rewrite range_top_double_value in *.
    assert (H45 : 0 < IZR (2 ^ 45)) by (apply IZR_lt; reflexivity).
    destruct (exp_minus_one_bounds 10) as [_ Hb].
    change (2 * 10)%nat with 20%nat in Hb.
    pose proof (exp_pos (-1)) as Hpos.
    pose proof (factZ_pos 20) as Hf. apply IZR_lt in Hf.
    assert (H5 : exp (-5) <= (IZR (alt_num 20) / IZR (factZ 20)) ^ 5).
    { rewrite exp_minus_five. apply pow_incr. lra. }
    assert (HZ : (5221823812744079 * alt_num 20 ^ Z.of_nat 5
                  <= 2 ^ 45 * factZ 20 ^ Z.of_nat 5)%Z)
      by (vm_compute; discriminate).
    apply IZR_le in HZ. rewrite !mult_IZR, <- !pow_IZR in HZ.
    pose proof (quotient_power_le_one _ _ _ _ H45 Hf HZ) as Hq.
    pose proof (exp_pos (-5)) as Hp5. pose proof (exp_pos 5) as Hq5.
    pose proof exp_five_inverse as Hinv.
    set (x := IZR 5221823812744079 / IZR (2 ^ 45)) in *.
    assert (Hxe : x * exp (-5) <= 1) by nra.
    nra.
Qed.

(** The logarithm of [np.exp(5.0)] is at most a quarter of a unit in
    the last place below 5.0. *)
Lemma ln_range_top_double :
  5 - / IZR (2 ^ 52) <= ln (B2R range_top_double) <= 5.
Proof.
  pose proof range_top_double_pos as Hx1.
  destruct range_top_double_in_range as [_ Hup].
  split.
  - rewrite <- (ln_exp (5 - / IZR (2 ^ 52))).
    apply ln_le_mono; [apply exp_pos |].
    rewrite range_top_double_value in *.
    assert (H45 : 0 < IZR (2 ^ 45)) by (apply IZR_lt; reflexivity).
    assert (H52 : 0 < IZR (2 ^ 52)) by (apply IZR_lt; reflexivity).
    set (d := / IZR (2 ^ 52)).
    assert (Hd : 0 < d) by (unfold d; now apply Rinv_0_lt_compat).
    destruct (exp_minus_one_bounds 10) as [Ha _].
    change (S (2 * 10))%nat with 21%nat in Ha.
    pose proof (factZ_pos 21) as Hf. apply IZR_lt in Hf.
    assert (Hnum : 0 < IZR (alt_num 21)) by (apply IZR_lt; reflexivity).
    assert (Ha0 : 0 < IZR (alt_num 21) / IZR (factZ 21))
      by now apply Rdiv_lt_0_compat.
    assert (H5 : (IZR (alt_num 21) / IZR (factZ 21)) ^ 5 <= exp (-5)).
    { rewrite exp_minus_five. apply pow_incr. lra. }
    assert (HZ : (2 ^ 45 * 2 ^ 52 * factZ 21 ^ Z.of_nat 5
                  <= 5221823812744079 * (2 ^ 52 + 1) * alt_num 21 ^ Z.of_nat 5)%Z)
      by (vm_compute; discriminate).
    apply IZR_le in HZ. rewrite !mult_IZR, <- !pow_IZR, plus_IZR in HZ.
    assert (H4552 : 0 < IZR (2 ^ 45) * IZR (2 ^ 52)) by nra.
    pose proof (quotient_power_ge_one _ _ _ _ H4552 Hf HZ) as Hq.
    set (a5 := (IZR (alt_num 21) / IZR (factZ 21)) ^ 5) in *.
    set (x := IZR 5221823812744079 / IZR (2 ^ 45)) in *.
    assert (Hxd : IZR 5221823812744079 * (IZR (2 ^ 52) + 1)
                  / (IZR (2 ^ 45) * IZR (2 ^ 52)) = x * (1 + d))
      by (unfold x, d; field; lra).
    rewrite Hxd in Hq.
    pose proof (exp_pos (-5)) as Hp5. pose proof (exp_pos 5) as Hq5.
    pose proof exp_five_inverse as Hinv.
    assert (He5 : exp 5 <= x * (1 + d)).
    { assert (1 <= x * (1 + d) * exp (-5)) by nra. nra. }
    replace (5 - d) with (5 + - d) by lra. rewrite exp_plus.
    pose proof (exp_ineq1_le d) as Hed.
    pose proof (exp_pos (- d)) as Hpd.
    assert (Hdd : exp d * exp (- d) = 1)
      by (rewrite <- exp_plus; replace (d + - d) with 0 by lra; apply exp_0).
    assert (Hmd : exp (- d) * (1 + d) <= 1) by nra.
    assert (exp 5 * exp (- d) * (1 + d) <= x * (1 + d)) by nra.
    apply Rmult_le_reg_r with (1 + d); lra.
  - rewrite <- (ln_exp 5). apply ln_le_mono; lra.
Qed.

Lemma powerRZ_2_le (e1 e2 : Z) : (e1 <= e2)%Z -> powerRZ 2 e1 <= powerRZ 2 e2.
Proof.
  intros He. replace e2 with (e1 + (e2 - e1))%Z by lia.
  rewrite powerRZ_2_split, (powerRZ_2_nonneg_exp (e2 - e1)) by lia.
  pose proof (powerRZ_2_pos e1).
  assert (1 <= IZR (2 ^ (e2 - e1))).
  { apply IZR_le.
    assert (0 < 2 ^ (e2 - e1))%Z by (apply Z.pow_pos_nonneg; lia). lia. }
  nra.
Qed.

Lemma powerRZ_2_negative (k : positive) :
  powerRZ 2 (Z.neg k) = / IZR (2 ^ Z.pos k).
Proof.
  change (Z.neg k) with (Z.opp (Z.pos k)).
  now rewrite powerRZ_neg', (powerRZ_2_nonneg_exp (Z.pos k)) by lia.
Qed.

(** Between 4 and 8 the binary64 numbers are the multiples of [2^-50];
    the only one within less than [2^-50] of 5 is 5.0 itself. *)
Lemma binary64_near_five (y : float) :
  5 - / IZR (2 ^ 50) < B2R y < 5 + / IZR (2 ^ 50) -> y = 5%float.
Proof.
  assert (H50 : 0 < / IZR (2 ^ 50) < 1).
  { split; [apply Rinv_0_lt_compat, IZR_lt; reflexivity |].
    rewrite <- Rinv_1. apply Rinv_lt_contravar; [| apply IZR_lt; reflexivity].
    rewrite Rmult_1_l. apply IZR_lt. reflexivity. }
  unfold B2R. pose proof (Prim2SF_valid y) as Hv.
  destruct (Prim2SF y) as [s | s | | s m e] eqn:Hy; cbn [SF2R]; try lra.
  cbn [valid_binary] in Hv.
  pose proof (bounded_mantissa m e Hv) as [Hm Hn].
  pose proof (bounded_exponent m e Hv) as He.
  pose proof (powerRZ_2_pos e) as Hp.
  pose proof (IZR_lt 0 (Z.pos m) ltac:(lia)) as Hm0.
  apply IZR_lt in Hm.
  destruct s; cbn [cond_Zopp]; [rewrite opp_IZR; nra |].
  intros Hr.
  assert (Hexp : e = (-50)%Z).
  { destruct (Z.lt_trichotomy e (-50)) as [Hlt | [Heq | Hgt]]; [| exact Heq |].
    - exfalso. pose proof (powerRZ_2_le e (-51) ltac:(lia)) as Hle.
      rewrite powerRZ_2_negative in Hle.
      assert (H4 : IZR (2 ^ 53) * / IZR (2 ^ 51) = 4).
      { change (2 ^ 53)%Z with (4 * 2 ^ 51)%Z. rewrite mult_IZR. field.
        apply not_0_IZR. discriminate. }
      assert (0 < / IZR (2 ^ 51))
        by (apply Rinv_0_lt_compat, IZR_lt; reflexivity).
      nra.
    - exfalso. destruct Hn as [Hn | Hn]; [| lia].
      apply IZR_le in Hn.
      pose proof (powerRZ_2_le (-49) e ltac:(lia)) as Hle.
      rewrite powerRZ_2_negative in Hle.
      assert (H8 : IZR (2 ^ 52) * / IZR (2 ^ 49) = 8).
      { change (2 ^ 52)%Z with (8 * 2 ^ 49)%Z. rewrite mult_IZR. field.
        apply not_0_IZR. discriminate. }
      assert (0 < / IZR (2 ^ 49))
        by (apply Rinv_0_lt_compat, IZR_lt; reflexivity).
      nra. }
  subst e. rewrite powerRZ_2_negative in Hr.
  assert (Hpos50 : 0 < IZR (2 ^ 50)) by (apply IZR_lt; reflexivity).
  assert (Hm5 : Z.pos m = (5 * 2 ^ 50)%Z).
  { assert (Hlo : IZR (5 * 2 ^ 50 - 1) < IZR (Z.pos m)).
    { rewrite minus_IZR, mult_IZR.
      apply Rmult_lt_reg_r with (/ IZR (2 ^ 50)); [lra |].
      rewrite Rmult_minus_distr_r, Rmult_assoc, Rinv_r by lra. lra. }
    assert (Hhi : IZR (Z.pos m) < IZR (5 * 2 ^ 50 + 1)).
    { rewrite plus_IZR, mult_IZR.
      apply Rmult_lt_reg_r with (/ IZR (2 ^ 50)); [lra |].
      rewrite Rmult_plus_distr_r, Rmult_assoc, Rinv_r by lra. lra. }
    apply lt_IZR in Hlo, Hhi. lia. }
  apply Prim2SF_inj. rewrite Hy.
  change (Prim2SF 5%float) with (S754_finite false 5629499534213120 (-50)).
  f_equal. change (5 * 2 ^ 50)%Z with (Z.pos 5629499534213120) in Hm5.
  now injection Hm5.
Qed.

(** A logarithm that is accurate to half a unit in the last place at
    [np.exp(5.0)], as a correctly rounded one is, returns exactly 5.0
    there. *)
Lemma accurate_log_at_range_top (y : float) :
  Rabs (B2R y - ln (B2R range_top_double)) <= / IZR (2 ^ 51) -> y = 5%float.
Proof.
  intros Hacc. apply binary64_near_five.
  pose proof ln_range_top_double as [Hlo Hhi].
  unfold Rabs in Hacc.
  assert (H52 : / IZR (2 ^ 52) = / IZR (2 ^ 50) / 4).
  { change (2 ^ 52)%Z with (2 ^ 50 * 4)%Z. rewrite mult_IZR. field.
    apply not_0_IZR. discriminate. }
  assert (H51 : / IZR (2 ^ 51) = / IZR (2 ^ 50) / 2).
  { change (2 ^ 51)%Z with (2 ^ 50 * 2)%Z. rewrite mult_IZR. field.
    apply not_0_IZR. discriminate. }
  assert (H50 : 0 < / IZR (2 ^ 50))
    by (apply Rinv_0_lt_compat, IZR_lt; reflexivity).
  destruct (Rcase_abs _) in Hacc; lra.
Qed.

Lemma B2R_five : B2R 5%float = 5.
Proof.
  unfold B2R.
  change (Prim2SF 5%float) with (S754_finite false 5629499534213120 (-50)).
  rewrite SF2R_negative_exponent. cbn [cond_Zopp].
  change (2 ^ 50)%Z with 1125899906842624%Z. lra.
Qed.

Lemma log_table_accurate :
  Rabs (B2R (log_table range_top_double) - ln (B2R range_top_double))
  <= / IZR (2 ^ 51).
Proof.
  change (log_table range_top_double) with 5%float. rewrite B2R_five.
  pose proof ln_range_top_double as [Hlo Hhi].
  assert (H52 : / IZR (2 ^ 52) = / IZR (2 ^ 51) / 2).
  { change (2 ^ 52)%Z with (2 ^ 51 * 2)%Z. rewrite mult_IZR. field.
    apply not_0_IZR. discriminate. }
  assert (H51 : 0 < / IZR (2 ^ 51))
    by (apply Rinv_0_lt_compat, IZR_lt; reflexivity).
  unfold Rabs. destruct (Rcase_abs _); lra.
Qed.

(** ** Quantiser on binary64 *)

Lemma binary64_transform_nonzero (np_log : float -> float) (x : float) :
  (x =? 0)%float = false ->
  Binary64.transform np_log x =
  Binary64.astype_uint8 (Binary64.map_1_255 np_log x default_range).
Proof.
  intros Hx. unfold Binary64.transform, Binary64.transform_range, Binary64.fne0.
  now rewrite Hx.
Qed.

Lemma binary64_transform_zero (np_log : float -> float) (x : float) :
  (x =? 0)%float = true -> Binary64.transform np_log x = 0%Z.
Proof.
  intros Hx. unfold Binary64.transform, Binary64.transform_range, Binary64.fne0.
  now rewrite Hx.
Qed.

Lemma binary64_transform_uint8 (np_log : float -> float) (x : float) :
  (0 <= Binary64.transform np_log x <= 255)%Z.
Proof. apply wrap_uint8_range. Qed.

(** When the logarithm is computed as [hi = 5.0] the local [map_1_255]
    is 256.0 and the conversion wraps it to the zero sentinel. *)
Lemma range_top_code (np_log : float -> float) (x : float) :
  (x =? 0)%float = false -> np_log x = 5%float ->
  Binary64.map_1_255 np_log x default_range = 256%float /\
  Binary64.transform np_log x = 0%Z.
Proof.
  intros Hx Hlog.
  assert (Hv : Binary64.map_1_255 np_log x default_range = 256%float).
  { unfold Binary64.map_1_255. rewrite Hlog. reflexivity. }
  split; [exact Hv |].
  rewrite binary64_transform_nonzero, Hv by assumption. reflexivity.
Qed.

Lemma binary64_reverse_transform_zero (np_exp : float -> float) :
  Binary64.reverse_transform np_exp 0 = 0%float.
Proof. reflexivity. Qed.

Lemma not_within_bin_step_zero (x : R) : 0 < x -> ~ within_bin_step x 0.
Proof. intros Hx [Hlo _]. pose proof (exp_pos (- bin_step)). nra. Qed.

(** C1 (defect of the code): the input [np.exp(5.0)] = 148.4131591025766
    lies in the range [[exp lo, exp hi]] of the claim.  With a logarithm
    accurate to half a unit in the last place at that input, [map_1_255]
    is 256.0, which does not fit [np.uint8]: the code is the zero
    sentinel and the round trip returns 0.0, which is not within one bin
    step of the input. *)
Theorem roundtrip_lost_at_range_top (np_log np_exp : float -> float) :
  Rabs (B2R (np_log range_top_double) - ln (B2R range_top_double))
    <= / IZR (2 ^ 51) ->
  exp (-10) <= B2R range_top_double <= exp 5 /\
  Binary64.map_1_255 np_log range_top_double default_range = 256%float /\
  Binary64.transform np_log range_top_double = 0%Z /\
  Binary64.reverse_transform np_exp
    (Binary64.transform np_log range_top_double) = 0%float /\
  ~ within_bin_step (B2R range_top_double)
      (B2R (Binary64.reverse_transform np_exp
              (Binary64.transform np_log range_top_double))).
Proof.
  intros Hacc. apply accurate_log_at_range_top in Hacc.
  destruct (range_top_code np_log range_top_double eq_refl Hacc) as [Hv Hc].
  split; [exact range_top_double_in_range |].
  split; [exact Hv |]. split; [exact Hc |].
  rewrite Hc, binary64_reverse_transform_zero.
  split; [reflexivity |].
  apply not_within_bin_step_zero.
  pose proof range_top_double_pos. lra.
Qed.

Lemma roundtrip_lost_at_range_top_witness :
  exp (-10) <= B2R range_top_double <= exp 5 /\
  Binary64.transform log_table range_top_double = 0%Z /\
  Binary64.reverse_transform (fun _ => 1%float)
    (Binary64.transform log_table range_top_double) = 0%float.
Proof.
  destruct (roundtrip_lost_at_range_top log_table (fun _ => 1%float)
              log_table_accurate) as (Hr & _ & Hc & Hz & _).
  exact (conj Hr (conj Hc Hz)).
Defined.



(** C8 (as amended): every code lies in [0, 255]; a zero input gets
    code 0; a nonzero input whose [map_1_255] lies in [[1, 256)] gets a
    code in [1, 255]; a nonzero input whose [map_1_255] lies in (-1, 1)
    gets code 0 as well. *)
Theorem transform_code_cases (np_log : float -> float) (x : float) :
  (0 <= Binary64.transform np_log x <= 255)%Z /\
  ((x =? 0)%float = true -> Binary64.transform np_log x = 0%Z) /\
  ((x =? 0)%float = false ->
   (1 <=? Binary64.map_1_255 np_log x default_range)%float = true ->
   (Binary64.map_1_255 np_log x default_range <? 256)%float = true ->
   (1 <= Binary64.transform np_log x <= 255)%Z) /\
  ((x =? 0)%float = false ->
   (-1 <? Binary64.map_1_255 np_log x default_range)%float = true ->
   (Binary64.map_1_255 np_log x default_range <? 1)%float = true ->
   Binary64.transform np_log x = 0%Z).
Proof.
  split; [apply binary64_transform_uint8 |].
  split; [apply binary64_transform_zero |].
  split.
  - intros Hx Hlo Hhi. rewrite binary64_transform_nonzero by assumption.
    set (v := Binary64.map_1_255 np_log x default_range) in *.
    pose proof Hlo as Hlo'. rewrite leb_order, B2X_one in Hlo'.
    pose proof Hhi as Hhi'. rewrite ltb_order, B2X_256 in Hhi'.
    destruct Hlo' as (_ & Hn & Hlo'), Hhi' as (_ & _ & Hhi').
    assert (H1 : (-1 <? v)%float = true)
      by (rewrite ltb_order, B2X_minus_one; repeat split; auto; lra).
    destruct (astype_uint8_window v H1 Hhi) as (Hc & Hf & Hw & Hr).
    rewrite Hf in Hlo'.
    split; [| lia]. rewrite Hc, Ztrunc_nonneg by lra.
    apply Zfloor_lub. exact Hlo'.
  - intros Hx Hlo Hhi. rewrite binary64_transform_nonzero by assumption.
    set (v := Binary64.map_1_255 np_log x default_range) in *.
    pose proof Hhi as Hhi'. rewrite ltb_order, B2X_one in Hhi'.
    destruct Hhi' as (Hn & _ & Hhi').
    pose proof Hlo as Hlo'. rewrite ltb_order, B2X_minus_one in Hlo'.
    destruct Hlo' as (_ & _ & Hlo').
    assert (H256 : (v <? 256)%float = true)
      by (rewrite ltb_order, B2X_256; repeat split; auto; lra).
    destruct (astype_uint8_window v Hlo H256) as (Hc & Hf & Hw & _).
    rewrite Hc. rewrite Hf in Hhi'.
    unfold Ztrunc. destruct (Rle_dec 0 (B2R v)).
    + apply Zfloor_eq. lra.
    + apply Zceil_eq. lra.
Qed.

Lemma transform_code_cases_witness :
  (0 <= Binary64.transform log_table 1 <= 255)%Z /\
  Binary64.transform log_table 0 = 0%Z /\
  (1 <= Binary64.transform log_table 1 <= 255)%Z.
Proof.
  destruct (transform_code_cases log_table 1%float) as (Hr & _ & Hin & _).
  destruct (transform_code_cases log_table 0%float) as (_ & Hz & _).
  split; [exact Hr |]. split; [apply Hz; reflexivity |].
  apply Hin; vm_compute; reflexivity.
Defined.

(** With [np.log(1.0) = 0.0] and [np.log(np.e) = 1.0] the codes are 171
    and 188. *)
Example transform_log_table :
  Binary64.transform log_table 1 = 171%Z /\
  Binary64.transform log_table np_e = 188%Z.
Proof. split; vm_compute; reflexivity. Qed.

(** ** Coordinate transform on binary64 *)

Lemma binary64_row_slot (np_arcsinh np_arcsin : float -> float)
  (j : Binary64.jet) (i : nat) :
  (i < n_constituents)%nat ->
  nth_error (Binary64.rel_constituents
               (Binary64.get_df_rel_row np_arcsinh np_arcsin j)) i =
  Some {| PT := Binary64.fillna0
                  (Binary64.abs_PT j i / Binary64.abs_PT j 0)%float;
          ETA := Binary64.fillna0
                   (Binary64.abs_ETA np_arcsinh j i
                    - Binary64.abs_ETA np_arcsinh j 0)%float;
          PHI := Binary64.fillna0
                   (Binary64.abs_PHI np_arcsin j i
                    - Binary64.abs_PHI np_arcsin j 0)%float |}.
Proof.
  intros Hi. unfold Binary64.get_df_rel_row. cbn [Binary64.rel_constituents].
  rewrite nth_error_map, nth_error_seq.
  destruct (Nat.ltb_spec i n_constituents) as [_ | Hge]; [| lia].
  reflexivity.
Qed.

(** The leading slot: [eta] and [phi] are [v - v] and [pt] is [v / v],
    each followed by [fillna(0)]. *)
Lemma leading_slot_binary64 (np_arcsinh np_arcsin : float -> float)
  (j : Binary64.jet) :
  nth_error (Binary64.rel_constituents
               (Binary64.get_df_rel_row np_arcsinh np_arcsin j)) 0 =
  Some {| PT := if Binary64.regular (Binary64.abs_PT j 0)
                then 1%float else 0%float;
          ETA := 0%float;
          PHI := 0%float |}.
Proof.
  rewrite binary64_row_slot by (unfold n_constituents; lia).
  now rewrite !fillna0_sub_self, fillna0_div_self.
Qed.

(** C2 (as amended): for every jet, every [np.arcsinh] and every
    [np.arcsin], the leading constituent gets [eta = 0.0] and
    [phi = 0.0]; its [pt] is 1.0 when the computed [PT_0] is finite and
    nonzero, and 0.0 otherwise ([PT_0] zero, infinite or NaN makes
    [PT_0 / PT_0] a NaN, which is filled with 0). *)
Theorem leading_constituent_binary64 (np_arcsinh np_arcsin : float -> float)
  (j : Binary64.jet) :
  nth_error (Binary64.rel_constituents
               (Binary64.get_df_rel_row np_arcsinh np_arcsin j)) 0 =
  Some {| PT := if Binary64.regular (Binary64.abs_PT j 0)
                then 1%float else 0%float;
          ETA := 0%float;
          PHI := 0%float |}.
Proof. exact (leading_slot_binary64 np_arcsinh np_arcsin j). Qed.

(** The leading slot of three jets: momentum (3, 4) gives [pt = 1];
    [px = 1e200] overflows in [PX**2], [px = py = 1e-200] underflows, and
    both give [pt = 0], as the all-zero slot does. *)
Example leading_constituent_cases (f g : float -> float) :
  let leading px py :=
    option_map PT
      (nth_error (Binary64.rel_constituents
                    (Binary64.get_df_rel_row f g
                       (Binary64.leading_only px py 0))) 0) in
  leading 3%float 4%float = Some 1%float /\
  leading 0x1.4e718d7d7625ap+664%float 0%float = Some 0%float /\
  leading 0x1.87e92154ef7acp-665%float 0x1.87e92154ef7acp-665%float
    = Some 0%float /\
  leading 0%float 0%float = Some 0%float.
Proof.
  cbv beta zeta. rewrite !leading_slot_binary64.
  repeat split; vm_compute; reflexivity.
Qed.
End Binary64Facts.

(** ** Rasteriser: the total of the image *)

Section ExactAccumulation.
Context {T : Type} `{Scalar T} (val : T -> R).

Lemma exact_fold_value (ws : list T) (acc : T) :
  exact_fold val acc ws ->
  val (fold_left s_add ws acc) = val acc + Rsum (map val ws).
Proof.
  revert acc. induction ws as [| w ws IH]; intros acc Hex.
  - cbn. unfold Rsum. cbn. lra.
  - destruct Hex as [Hw Hrest]. cbn [fold_left map].
    rewrite (IH _ Hrest), Hw, Rsum_cons. lra.
Qed.

Lemma core_sum_ext (f g : nat -> nat -> R) :
  (forall i j, (1 <= i <= 40)%nat -> (1 <= j <= 40)%nat -> f i j = g i j) ->
  core_sum f = core_sum g.
Proof.
  intros Hfg. unfold core_sum. rewrite !Rsum_flat_map. f_equal.
  apply map_ext_in. intros i Hi. f_equal.
  apply map_ext_in. intros j Hj.
  apply in_seq in Hi, Hj. apply Hfg; lia.
Qed.

(** The total of the image is the sum, over the core cells, of the
    values of the cells' running sums. *)
Lemma image_value_cells (trf : list (constituent T)) :
  image_value val (jet_image trf) =
  core_sum (fun i j =>
              val (fold_left s_add (bin_weights (i * nbin + j) trf)
                     (s_of_Z 0))).
Proof.
  unfold image_value, core_sum.
  rewrite jet_image_cells, concat_concat_cells, map_flat_map.
  apply (f_equal Rsum), flat_map_ext. intros i. now rewrite map_map.
Qed.

Lemma bin_weights_value_cons (k : nat) (c : constituent T)
  (trf : list (constituent T)) :
  Rsum (map val (bin_weights k (c :: trf))) =
  (if (ravel_index (ETA c) (PHI c) =? k)%nat then val (PT c) else 0) +
  Rsum (map val (bin_weights k trf)).
Proof.
  unfold bin_weights. cbn [filter].
  destruct (ravel_index (ETA c) (PHI c) =? k)%nat; cbn [map].
  - now rewrite Rsum_cons.
  - lra.
Qed.

Lemma bin_index_lt_nbin (v : T) : (bin_index histogram_edges v < nbin)%nat.
Proof.
  pose proof (bin_index_le histogram_edges v) as Hle.
  unfold histogram_edges in Hle at 2. rewrite linspace_length in Hle.
  unfold nbin. lia.
Qed.

(** Summed over the core cells, the weights of the cells are the weights
    of the particles that are not outliers. *)
Lemma core_sum_bin_weights (trf : list (constituent T)) :
  core_sum (fun i j => Rsum (map val (bin_weights (i * nbin + j) trf))) =
  Rsum (map (fun c => if in_core_bins c then val (PT c) else 0) trf).
Proof.
  induction trf as [| c trf IH].
  - unfold bin_weights. cbn [filter map]. apply core_sum_zero.
  - cbn [map]. rewrite Rsum_cons, <- IH. unfold in_core_bins.
    rewrite <- (core_sum_indicator (bin_index histogram_edges (ETA c)) _
                  (val (PT c))) by apply bin_index_lt_nbin.
    rewrite <- core_sum_plus. apply core_sum_ext. intros i j _ _.
    apply bin_weights_value_cons.
Qed.

Lemma kept_le_sum {A : Type} (keep : A -> bool) (w : A -> R) (l : list A) :
  (forall a, In a l -> 0 <= w a) ->
  Rsum (map (fun a => if keep a then w a else 0) l) <= Rsum (map w l) /\
  (Rsum (map (fun a => if keep a then w a else 0) l) = Rsum (map w l) <->
   forall a, In a l -> keep a = true \/ w a = 0).
Proof.
  induction l as [| a l IH]; intros Hnn.
  - split; [apply Rle_refl |]. split; [intros _ b [] | reflexivity].
  - destruct IH as [Hle Heq]; [intros b Hb; apply Hnn; now right |].
    pose proof (Hnn a (or_introl eq_refl)) as Ha.
    cbn [map]. rewrite !Rsum_cons.
    destruct (keep a) eqn:Hk.
    + split; [lra |]. split.
      * intros Hsum b [<- | Hb]; [now left |]. apply Heq; [lra | exact Hb].
      * intros Hall.
        assert (Rsum (map (fun b => if keep b then w b else 0) l)
                = Rsum (map w l))
          by (apply Heq; intros b Hb; apply Hall; now right).
        lra.
    + split; [lra |]. split.
      * intros Hsum b [<- | Hb]; [right; lra |]. apply Heq; [lra | exact Hb].
      * intros Hall.
        assert (Rsum (map (fun b => if keep b then w b else 0) l)
                = Rsum (map w l))
          by (apply Heq; intros b Hb; apply Hall; now right).
        destruct (Hall a (or_introl eq_refl)) as [Hc | Hz]; [congruence | lra].
Qed.

(** When no addition into a cell rounds, the exact sum of all cells is
    the exact sum of the weights of the particles that are put into a
    core bin; for nonnegative weights it is at most the sum of all input
    weights, with equality exactly when every dropped particle has
    weight 0. *)
Lemma image_total_exact_sums (trf : list (constituent T)) :
  val (s_of_Z 0) = 0 ->
  exact_accumulation val trf ->
  (forall c, In c trf -> 0 <= val (PT c)) ->
  image_value val (jet_image trf) =
    Rsum (map (fun c => if in_core_bins c then val (PT c) else 0) trf) /\
  image_value val (jet_image trf) <= pt_value val trf /\
  (image_value val (jet_image trf) = pt_value val trf <->
   forall c, In c trf -> in_core_bins c = true \/ val (PT c) = 0).
Proof.
  intros Hzero Hexact Hnn.
  assert (Hval : image_value val (jet_image trf) =
                 Rsum (map (fun c => if in_core_bins c then val (PT c) else 0)
                         trf)).
  { rewrite image_value_cells, <- core_sum_bin_weights.
    apply core_sum_ext. intros i j Hi Hj.
    rewrite (exact_fold_value _ _ (Hexact i j Hi Hj)), Hzero. lra. }
  split; [exact Hval |]. rewrite Hval. unfold pt_value.
  apply (kept_le_sum in_core_bins (fun c => val (PT c)) trf Hnn).
Qed.
End ExactAccumulation.

Section Binary64Rasteriser.
Import SpecFloat FloatOps FloatAxioms.

Lemma B2R_finite_value (x : float) (s : bool) (m k : positive) :
  Prim2SF x = S754_finite s m (Z.neg k) ->
  B2R x = IZR (cond_Zopp s (Z.pos m)) / IZR (2 ^ Z.pos k).
Proof. intros Hx. unfold B2R. rewrite Hx. apply SF2R_negative_exponent. Qed.

Lemma B2R_zero_value (x : float) (s : bool) :
  Prim2SF x = S754_zero s -> B2R x = 0.
Proof. intros Hx. unfold B2R. now rewrite Hx. Qed.
End Binary64Rasteriser.

(** Exact values of binary64 constants in a goal, as fractions. *)
Ltac exact_values :=
  repeat match goal with
    | |- context [B2R ?x] =>
        let sf := eval vm_compute in (FloatOps.Prim2SF x) in
        lazymatch sf with
        | SpecFloat.S754_finite ?s ?m (Z.neg ?k) =>
            rewrite (B2R_finite_value x s m k) by (vm_compute; reflexivity)
        | SpecFloat.S754_zero ?s =>
            rewrite (B2R_zero_value x s) by (vm_compute; reflexivity)
        end
    end;
  cbn [SpecFloat.cond_Zopp Z.opp];
  repeat match goal with
    | |- context [(2 ^ Z.pos ?k)%Z] =>
        let v := eval vm_compute in (2 ^ Z.pos k)%Z in
        change (2 ^ Z.pos k)%Z with v
    end.

(** The flattened bin numbers of (0, 0), the centre cell, and of (2, 0),
    an outlier along eta. *)
Lemma binary64_ravel_centre : ravel_index 0%float 0%float = 903%nat.
Proof. vm_compute. reflexivity. Qed.

Lemma binary64_ravel_outlier : ravel_index 2%float 0%float = 1743%nat.
Proof. vm_compute. reflexivity. Qed.

Lemma inside_and_outside_exact : exact_accumulation B2R inside_and_outside.
Proof.
  intros i j _ _. unfold bin_weights, inside_and_outside.
  cbn [filter ETA PHI].
  rewrite binary64_ravel_centre, binary64_ravel_outlier.
  destruct (903 =? i * nbin + j)%nat, (1743 =? i * nbin + j)%nat;
    cbn [map PT exact_fold s_add s_of_Z binary64_scalar float_of_Z];
    repeat split; exact_values; lra.
Qed.


(** ** Rasteriser on binary64: which particles are counted *)

Section Binary64Bins.
Import SpecFloat FloatOps FloatAxioms.

(** The 41 computed edges start at -1.0, end at 1.0 and lie in between. *)
Lemma binary64_edges_shape :
  @histogram_edges float _ =
  (-1)%float :: firstn 39 (tl (@histogram_edges float _)) ++ [1%float].
Proof. vm_compute. reflexivity. Qed.

Lemma binary64_edges_bounded :
  forallb (fun e => ((-1 <=? e) && (e <=? 1))%float)
          (@histogram_edges float _) = true.
Proof. vm_compute. reflexivity. Qed.

Lemma binary64_edges_last :
  last (@histogram_edges float _) (s_of_Z 0) = 1%float.
Proof. vm_compute. reflexivity. Qed.

Lemma binary64_edge_position (e : float) :
  In e (@histogram_edges float _) ->
  is_nan e = false /\ -1 <= B2X e <= 1.
Proof.
  intros He. pose proof binary64_edges_bounded as Hall.
  rewrite forallb_forall in Hall. specialize (Hall e He).
  apply andb_true_iff in Hall. destruct Hall as [Hlo Hhi].
  rewrite leb_order in Hlo, Hhi.
  rewrite B2X_minus_one in Hlo. rewrite B2X_one in Hhi.
  tauto.
Qed.

(** Along one axis a value is put into a core bin exactly when it lies
    in [[-1, 1]]; a NaN is an outlier. *)
Lemma binary64_core_bin_range (v : float) :
  core_bin (bin_index histogram_edges v) = true <->
  ((-1 <=? v) && (v <=? 1))%float = true.
Proof.
  rewrite andb_true_iff, !leb_order, B2X_minus_one, B2X_one.
  unfold bin_index, searchsorted_right. rewrite binary64_edges_last.
  cbn [s_le s_eq binary64_scalar].
  assert (Hlen : length (@histogram_edges float _) = 41%nat)
    by apply linspace_length.
  destruct (is_nan v) eqn:Hnan.
  - (* NaN: every edge is counted, and [v == 1.0] is false *)
    rewrite filter_all_true by (intros e _; apply orb_true_r).
    assert (Heq : (v =? 1)%float = false).
    { destruct (v =? 1)%float eqn:Heq; [| reflexivity].
      apply eqb_order in Heq. destruct Heq as [Hn _]. congruence. }
    rewrite Heq, Hlen. change (core_bin 41) with false.
    split; [discriminate | intros [_ (Hn & _)]; discriminate].
  - assert (Hle : forall e, In e (@histogram_edges float _) ->
              ((e <=? v)%float || false = true <-> B2X e <= B2X v)).
    { intros e He. destruct (binary64_edge_position e He) as [Hne _].
      rewrite orb_false_r, leb_order. tauto. }
    assert (Hone : ((v =? 1)%float = true /\ B2X v = 1) \/
                   ((v =? 1)%float = false /\ B2X v <> 1)).
    { destruct (v =? 1)%float eqn:Heq.
      - left. apply eqb_order in Heq. rewrite B2X_one in Heq. tauto.
      - right. split; [reflexivity |]. intros Hv.
        assert (Ht : (v =? 1)%float = true)
          by (rewrite eqb_order, B2X_one; repeat split; auto).
        congruence. }
    destruct (Rlt_dec (B2X v) (-1)) as [Hbelow | Hnb].
    + rewrite filter_all_false.
      * destruct Hone as [[-> Hv] | [-> Hv]]; [lra |].
        change (core_bin (length [])) with false.
        split; [discriminate | intros [(_ & _ & Hlo) _]; lra].
      * intros e He. destruct (binary64_edge_position e He) as [_ Hpos].
        destruct ((e <=? v)%float || false) eqn:Hc; [| reflexivity].
        apply (Hle e He) in Hc. lra.
    + destruct (Rle_dec 1 (B2X v)) as [Habove | Hna].
      * rewrite filter_all_true.
        -- rewrite Hlen. destruct Hone as [[-> Hv] | [-> Hv]].
           ++ change (core_bin (41 - 1)) with true.
              split; [intros _ | reflexivity].
              repeat split; auto; lra.
           ++ change (core_bin 41) with false.
              split; [discriminate |].
              intros [_ (_ & _ & Hhi)]. lra.
        -- intros e He. destruct (binary64_edge_position e He) as [_ Hpos].
           apply (Hle e He). lra.
      * destruct Hone as [[-> Hv] | [-> Hv]]; [lra |].
        rewrite binary64_edges_shape.
        assert (H39 : length (firstn 39 (tl (@histogram_edges float _))) = 39%nat).
        { rewrite length_firstn, length_tl, Hlen. reflexivity. }
        pose proof (filter_length_first_last
                      (fun e => (e <=? v)%float || false)
                      (-1)%float 1%float
                      (firstn 39 (tl (@histogram_edges float _)))) as Hcount.
        rewrite H39 in Hcount.
        assert (Hfirst : ((-1 <=? v)%float || false) = true).
        { rewrite orb_false_r, leb_order, B2X_minus_one.
          repeat split; auto. lra. }
        assert (Hlast : ((1 <=? v)%float || false) = false).
        { rewrite orb_false_r. destruct (1 <=? v)%float eqn:Hc; [| reflexivity].
          apply leb_order in Hc. rewrite B2X_one in Hc. lra. }
        specialize (Hcount Hfirst Hlast).
        unfold core_bin. rewrite andb_true_iff, !Nat.leb_le.
        split; [intros _ | intros _; lia].
        repeat split; auto; lra.
Qed.

(** A particle is put into the 40 x 40 core exactly when
    [-1 <= eta <= 1] and [-1 <= phi <= 1]. *)
Lemma binary64_in_core_bins (c : constituent float) :
  in_core_bins c = in_range_binary64 c.
Proof.
  unfold in_core_bins, in_range_binary64.
  apply eq_true_iff_eq. rewrite !andb_true_iff.
  rewrite (binary64_core_bin_range (ETA c)), (binary64_core_bin_range (PHI c)).
  rewrite !andb_true_iff. tauto.
Qed.

Lemma finite_nonneg_value (x : float) :
  finite_nonneg x = true -> 0 <= B2R x.
Proof.
  unfold finite_nonneg. rewrite andb_true_iff, leb_order, ltb_order.
  intros [(_ & _ & Hlo) (_ & _ & Hhi)].
  change (B2X 0%float) with 0 in Hlo.
  change (B2X infinity) with (IZR (2 ^ 1024)) in Hhi.
  rewrite <- (B2X_finite x); [exact Hlo |].
  assert (0 < IZR (2 ^ 1024)) by (apply IZR_lt; reflexivity). lra.
Qed.

(** C6 (as amended): for binary64 particles of finite nonnegative weight
    whose accumulation does not round, the exact sum of all cells is the
    sum of the weights of the particles with [-1 <= eta <= 1] and
    [-1 <= phi <= 1]; it is at most the sum of all weights, with equality
    exactly when every other particle has weight 0. *)
Theorem image_total_binary64 (trf : list (constituent float)) :
  exact_accumulation B2R trf ->
  (forall c, In c trf -> finite_nonneg (PT c) = true) ->
  image_value B2R (jet_image trf) =
    Rsum (map (fun c => if in_range_binary64 c then B2R (PT c) else 0) trf) /\
  image_value B2R (jet_image trf) <= pt_value B2R trf /\
  (image_value B2R (jet_image trf) = pt_value B2R trf <->
   forall c, In c trf -> in_range_binary64 c = true \/ B2R (PT c) = 0).
Proof.
  intros Hexact Hfin.
  assert (Hzero : B2R (s_of_Z 0) = 0) by reflexivity.
  destruct (image_total_exact_sums B2R trf Hzero Hexact) as (Hval & Hle & Heq).
  { intros c Hc. apply finite_nonneg_value, Hfin, Hc. }
  split; [| split; [exact Hle |]].
  - rewrite Hval. f_equal. apply map_ext. intros c.
    now rewrite binary64_in_core_bins.
  - rewrite Heq. split; intros Hall c Hc; specialize (Hall c Hc);
      now rewrite binary64_in_core_bins in *.
Qed.
End Binary64Bins.

Lemma image_total_binary64_witness :
  image_value B2R (jet_image inside_and_outside) = 3 /\
  image_value B2R (jet_image inside_and_outside) <=
  pt_value B2R inside_and_outside.
Proof.
  destruct (image_total_binary64 inside_and_outside inside_and_outside_exact)
    as (Hval & Hle & _).
  - intros c [<- | [<- | [<- | []]]]; vm_compute; reflexivity.
  - split; [| exact Hle]. rewrite Hval.
    unfold inside_and_outside. cbn [map]. unfold Rsum. cbn [fold_right].
    replace (in_range_binary64 {| PT := 1%float; ETA := 0%float; PHI := 0%float |})
      with true by (vm_compute; reflexivity).
    replace (in_range_binary64 {| PT := 2%float; ETA := 0%float; PHI := 0%float |})
      with true by (vm_compute; reflexivity).
    replace (in_range_binary64 {| PT := 3%float; ETA := 2%float; PHI := 0%float |})
      with false by (vm_compute; reflexivity).
    cbn [PT]. exact_values. lra.
Defined.

(** Two weights that meet in the centre cell: the cell holds the rounded
    sum [0.1 + 0.2 = 0.30000000000000004]. *)
Lemma tenth_and_fifth_total :
  image_value B2R (jet_image tenth_and_fifth) =
  B2R 0x1.3333333333334p-2%float.
Proof.
  rewrite image_value_cells.
  rewrite (core_sum_ext _
    (fun i j => if (21 * nbin + 21 =? i * nbin + j)%nat
                then B2R 0x1.3333333333334p-2%float else 0)).
  - now rewrite core_sum_indicator by (unfold nbin; lia).
  - intros i j _ _. unfold bin_weights, tenth_and_fifth.
    cbn [filter ETA PHI]. rewrite binary64_ravel_centre.
    change (21 * nbin + 21)%nat with 903%nat.
    destruct (903 =? i * nbin + j)%nat; reflexivity.
Qed.

Lemma weightless_outside_total :
  image_value B2R (jet_image weightless_outside) = 0.
Proof.
  rewrite image_value_cells.
  rewrite (core_sum_ext _ (fun _ _ => 0)); [apply core_sum_zero |].
  intros i j _ _. unfold bin_weights, weightless_outside.
  cbn [filter ETA PHI]. rewrite binary64_ravel_outlier.
  destruct (1743 =? i * nbin + j)%nat; reflexivity.
Qed.

(** C6 (as stated) fails on binary64 in both of its parts.  The weights
    0.1 and 0.2 of two particles inside the range are added in one cell
    and the sum is rounded up: the cells total more than the exact sum of
    the weights.  And the particle [(pt, eta, phi) = (0, 2, 0)] lies
    outside the range and is dropped, yet the total of the cells equals
    the sum of the weights (both are 0). *)
Lemma total_above_sum_and_equal_with_outside :
  (forall c, In c tenth_and_fifth ->
     finite_nonneg (PT c) = true /\ in_range_binary64 c = true) /\
  pt_value B2R tenth_and_fifth < image_value B2R (jet_image tenth_and_fifth) /\
  (forall c, In c weightless_outside -> finite_nonneg (PT c) = true) /\
  image_value B2R (jet_image weightless_outside) =
    pt_value B2R weightless_outside /\
  ~ (forall c, In c weightless_outside -> in_range_binary64 c = true).
Proof.
  split; [| split; [| split; [| split]]].
  - intros c [<- | [<- | []]]; split; vm_compute; reflexivity.
  - rewrite tenth_and_fifth_total.
    unfold pt_value, tenth_and_fifth, Rsum. cbn [map fold_right PT].
    exact_values. lra.
  - intros c [<- | []]. vm_compute. reflexivity.
  - rewrite weightless_outside_total.
    unfold pt_value, weightless_outside, Rsum. cbn [map fold_right PT].
    exact_values. lra.
  - intros Hall.
    specialize (Hall _ (or_introl eq_refl)). vm_compute in Hall. discriminate.
Qed.

(* ================================================================== *)
(** * Part IV: further properties of the pipeline                      *)
(* ================================================================== *)

(** ** Coordinate transform: shape and padding *)

Lemma fillna0_not_nan (v : f64) : isnan (fillna0 v) = false.
Proof. destruct v; reflexivity. Qed.

Lemma get_df_rel_row_length (j : jet) :
  length (rel_constituents (get_df_rel_row j)) = n_constituents.
Proof.
  unfold get_df_rel_row. cbn [rel_constituents].
  now rewrite length_map, length_seq.
Qed.

Lemma get_df_rel_row_no_nan (j : jet) :
  forallb no_nan (rel_constituents (get_df_rel_row j)) = true.
Proof.
  apply forallb_forall. intros c Hc.
  unfold get_df_rel_row in Hc. cbn [rel_constituents] in Hc.
  apply in_map_iff in Hc as [i [<- _]].
  unfold no_nan. cbn [PT ETA PHI]. now rewrite !fillna0_not_nan.
Qed.

(** X1: [get_df_rel] keeps the rows and their labels, gives every row
    exactly 200 triples, and no [PT], [ETA] or [PHI] of its output is
    NaN, whatever the input holds (NaN and infinities included). *)
Theorem get_df_rel_frame (df : list jet) :
  length (get_df_rel df) = length df /\
  map rel_is_signal_new (get_df_rel df) = map is_signal_new df /\
  forallb (fun r => (length (rel_constituents r) =? 200)%nat
                    && forallb no_nan (rel_constituents r))
          (get_df_rel df) = true.
Proof.
  unfold get_df_rel. split; [apply length_map |]. split.
  - rewrite map_map. reflexivity.
  - apply forallb_forall. intros r Hr.
    apply in_map_iff in Hr as [j [<- _]].
    rewrite get_df_rel_row_length, get_df_rel_row_no_nan. reflexivity.
Qed.

Lemma fillna0_zero_quotient (v : f64) : fillna0 (fdiv (Fin 0) v) = Fin 0.
Proof.
  destruct v as [| | | y]; try reflexivity.
  cbn [fdiv]. destruct (Req_dec_T y 0) as [-> | Hy].
  - now rewrite Rsign_zero.
  - cbn. f_equal. unfold Rdiv. apply Rmult_0_l.
Qed.

Lemma zero_slot_rel (j : jet) (i : nat) :
  (i < n_constituents)%nat -> zero_slot j i ->
  nth_error (rel_constituents (get_df_rel_row j)) i =
  Some {| PT := Fin 0; ETA := Fin 0; PHI := Fin 0 |}.
Proof.
  intros Hi [Hx [Hy Hz]].
  rewrite get_df_rel_row_slot by assumption.
  assert (Hpt : abs_PT j i = Fin 0) by now apply abs_PT_zero.
  assert (Heta : abs_ETA j i = NaN).
  { unfold abs_ETA. now rewrite Hpt, Hz, fdiv_by_zero, Rsign_zero. }
  assert (Hphi : abs_PHI j i = NaN).
  { unfold abs_PHI. now rewrite Hpt, Hy, fdiv_by_zero, Rsign_zero. }
  now rewrite Hpt, Heta, Hphi, fillna0_zero_quotient.
Qed.

(** X2: a zero-padded slot ([px = py = pz = 0]) is mapped to
    [(pt, eta, phi) = (0, 0, 0)] in every jet, whatever the leading
    constituent is (zero, infinite or NaN included). *)
Theorem zero_padding_maps_to_zero (j : jet) (i : nat) :
  (i < n_constituents)%nat -> zero_slot j i ->
  nth_error (rel_constituents (get_df_rel_row j)) i =
  Some {| PT := Fin 0; ETA := Fin 0; PHI := Fin 0 |}.
Proof. exact (zero_slot_rel j i). Qed.

Lemma zero_padding_maps_to_zero_witness :
  nth_error (rel_constituents
               (get_df_rel_row (two_constituents (10, 3, 4, 0) (5, 1, 2, 3))))
            7 = Some {| PT := Fin 0; ETA := Fin 0; PHI := Fin 0 |}.
Proof.
  apply zero_padding_maps_to_zero.
  - unfold n_constituents. lia.
  - repeat split.
Defined.


(** ** Rasteriser: shape, outliers, incremental accumulation *)

Section RasteriserCells.
Context {T : Type} `{Scalar T}.

Lemma jet_image_shape (trf : list (constituent T)) :
  has_shape 40 40 (jet_image trf).
Proof.
  rewrite jet_image_cells. split.
  - now rewrite length_map, length_seq.
  - apply Forall_forall. intros row Hrow.
    apply in_map_iff in Hrow as [i [<- _]]. split.
    + now rewrite length_map, length_seq.
    + apply Forall_forall. intros px Hpx.
      apply in_map_iff in Hpx as [j [<- _]]. reflexivity.
Qed.

Lemma nth_error_map_seq {B : Type} (f : nat -> B) (start len i : nat) :
  (i < len)%nat -> nth_error (map f (seq start len)) i = Some (f (start + i)%nat).
Proof.
  intros Hi. rewrite nth_error_map, nth_error_seq.
  destruct (Nat.ltb_spec i len); [reflexivity | lia].
Qed.

(** The value of a core cell. *)
Lemma pixel_at_jet_image (trf : list (constituent T)) (i j : nat) :
  (i < 40)%nat -> (j < 40)%nat ->
  pixel_at (jet_image trf) i j =
  Some (fold_left s_add (bin_weights (core_cell_index i j) trf) (s_of_Z 0)).
Proof.
  intros Hi Hj. rewrite jet_image_cells. unfold pixel_at.
  rewrite (nth_error_map_seq _ 1 40 i Hi). cbn [bind].
  rewrite (nth_error_map_seq _ 1 40 j Hj). reflexivity.
Qed.

Lemma bin_weights_app (k : nat) (l1 l2 : list (constituent T)) :
  bin_weights k (l1 ++ l2) = bin_weights k l1 ++ bin_weights k l2.
Proof. unfold bin_weights. now rewrite filter_app, map_app. Qed.

Lemma histogram_bin_lt (v : T) : (bin_index histogram_edges v < nbin)%nat.
Proof.
  pose proof (bin_index_le histogram_edges v) as Hle.
  assert (Hlen : length (@histogram_edges T _) = 41%nat)
    by apply linspace_length.
  rewrite Hlen in Hle. unfold nbin. lia.
Qed.

(** A constituent whose flattened bin number is that of a core cell has
    core bins on both axes. *)
Lemma core_cell_in_core (c : constituent T) (i j : nat) :
  (i < 40)%nat -> (j < 40)%nat ->
  ravel_index (ETA c) (PHI c) = core_cell_index i j ->
  in_core_bins c = true.
Proof.
  intros Hi Hj Hk. unfold in_core_bins, core_bin.
  unfold ravel_index, core_cell_index in Hk.
  pose proof (histogram_bin_lt (ETA c)) as Hx.
  pose proof (histogram_bin_lt (PHI c)) as Hy.
  unfold nbin in *.
  assert (bin_index histogram_edges (ETA c) = S i) by lia.
  assert (bin_index histogram_edges (PHI c) = S j) by lia.
  rewrite !andb_true_iff, !Nat.leb_le. lia.
Qed.

Lemma bin_weights_core_filter (trf : list (constituent T)) (i j : nat) :
  (i < 40)%nat -> (j < 40)%nat ->
  bin_weights (core_cell_index i j) (filter in_core_bins trf) =
  bin_weights (core_cell_index i j) trf.
Proof.
  intros Hi Hj. unfold bin_weights. f_equal.
  induction trf as [| c trf IH]; [reflexivity |].
  cbn [filter].
  destruct (Nat.eqb_spec (ravel_index (ETA c) (PHI c)) (core_cell_index i j))
    as [Hk | Hk].
  - rewrite (core_cell_in_core c i j Hi Hj Hk). cbn [filter].
    destruct (Nat.eqb_spec (ravel_index (ETA c) (PHI c)) (core_cell_index i j));
      [now rewrite IH | contradiction].
  - destruct (in_core_bins c); [| exact IH].
    cbn [filter].
    destruct (Nat.eqb_spec (ravel_index (ETA c) (PHI c)) (core_cell_index i j));
      [contradiction | exact IH].
Qed.

Lemma jet_image_ext (trf trf' : list (constituent T)) :
  (forall i j, (i < 40)%nat -> (j < 40)%nat ->
     fold_left s_add (bin_weights (core_cell_index i j) trf) (s_of_Z 0) =
     fold_left s_add (bin_weights (core_cell_index i j) trf') (s_of_Z 0)) ->
  jet_image trf = jet_image trf'.
Proof.
  intros Hcells. rewrite !jet_image_cells.
  apply map_ext_in. intros i Hi. apply map_ext_in. intros j Hj.
  apply in_seq in Hi, Hj. f_equal.
  destruct i as [| i]; [lia |]. destruct j as [| j]; [lia |].
  apply (Hcells i j); lia.
Qed.

(** X7: particles outside [[-1,1] x [-1,1]] (histogram outliers, NaN
    coordinates included) are dropped: removing them from the list gives
    the identical image.  This holds for every element type, binary64
    included. *)
Theorem jet_image_drops_outliers (trf : list (constituent T)) :
  jet_image (filter in_core_bins trf) = jet_image trf.
Proof.
  apply jet_image_ext. intros i j Hi Hj.
  now rewrite bin_weights_core_filter.
Qed.

(** X8: the image is built particle by particle: appending a particle
    adds its [pt] to the one cell it falls into (on the right of the sum
    accumulated so far) and leaves every other cell as it was.  This holds
    for every element type, binary64 included. *)
Theorem jet_image_append (trf : list (constituent T)) (c : constituent T)
  (i j : nat) :
  (i < 40)%nat -> (j < 40)%nat ->
  pixel_at (jet_image (trf ++ [c])) i j =
  if (ravel_index (ETA c) (PHI c) =? core_cell_index i j)%nat
  then option_map (fun v => s_add v (PT c)) (pixel_at (jet_image trf) i j)
  else pixel_at (jet_image trf) i j.
Proof.
  intros Hi Hj. rewrite !pixel_at_jet_image by assumption.
  rewrite bin_weights_app, fold_left_app.
  unfold bin_weights at 1. cbn [filter].
  destruct (ravel_index (ETA c) (PHI c) =? core_cell_index i j)%nat;
    reflexivity.
Qed.
End RasteriserCells.

Lemma jet_image_append_witness :
  pixel_at (jet_image (heavy_first ++ unit_centre)) 20 20 =
  option_map (fun v => PrimFloat.add v 1%float)
    (pixel_at (jet_image heavy_first) 20 20).
Proof.
  exact (jet_image_append heavy_first
           {| PT := 1%float; ETA := 0%float; PHI := 0%float |} 20 20
           ltac:(lia) ltac:(lia)).
Defined.

(** ** Rasteriser on finite values: which cell, zero weights *)

Lemma INR_40 : INR 40 = 40.
Proof. rewrite INR_IZR_INZ. reflexivity. Qed.

Lemma edge_at_linear (k : nat) : (k <= 40)%nat -> edge_at k = INR k / 20 - 1.
Proof.
  intros Hk. unfold edge_at.
  destruct (Nat.eqb_spec k 40) as [-> | Hne].
  - rewrite INR_40. lra.
  - rewrite <- INR_IZR_INZ. lra.
Qed.

Lemma filter_seq_prefix (f : nat -> bool) (n m : nat) :
  (m <= n)%nat ->
  (forall k, (k < m)%nat -> f k = true) ->
  (forall k, (m <= k < n)%nat -> f k = false) ->
  filter f (seq 0 n) = seq 0 m.
Proof.
  intros Hmn Ht Hf.
  replace n with (m + (n - m))%nat by lia.
  rewrite seq_app, filter_app.
  rewrite filter_all_true, filter_all_false.
  - apply app_nil_r.
  - intros k Hk. apply in_seq in Hk. apply Hf. lia.
  - intros k Hk. apply in_seq in Hk. apply Ht. lia.
Qed.

Lemma f64_bin_location (v : R) (i : nat) :
  (i < 40)%nat ->
  INR i / 20 - 1 <= v < INR (S i) / 20 - 1 \/ (i = 39%nat /\ v = 1) ->
  bin_index (@histogram_edges f64 _) (Fin v) = S i.
Proof.
  intros Hi Hv. rewrite f64_bin_index.
  destruct Hv as [[Hlo Hhi] | [-> ->]].
  - assert (Hv1 : v < 1).
    { assert (INR (S i) <= INR 40) by (apply le_INR; lia).
      rewrite INR_40 in *. lra. }
    destruct (Req_dec_T v 1) as [-> | _]; [lra |].
    rewrite (filter_seq_prefix (edge_le v) 41 (S i)); [apply length_seq | lia | |].
    + intros k Hk. unfold edge_le. rewrite edge_at_linear by lia.
      assert (INR k <= INR i) by (apply le_INR; lia).
      destruct (Rle_dec (INR k / 20 - 1) v); [reflexivity | lra].
    + intros k Hk. unfold edge_le. rewrite edge_at_linear by lia.
      assert (INR (S i) <= INR k) by (apply le_INR; lia).
      destruct (Rle_dec (INR k / 20 - 1) v); [lra | reflexivity].
  - destruct (Req_dec_T 1 1); [reflexivity | contradiction].
Qed.

Lemma fadd_zero_r (a : f64) : fadd a (Fin 0) = a.
Proof. destruct a; cbn; try reflexivity. f_equal. lra. Qed.

Lemma fne0_false (a : f64) : fne0 a = false -> a = Fin 0.
Proof.
  destruct a as [| | | r]; cbn; try discriminate.
  destruct (Req_dec_T r 0) as [-> | _]; [reflexivity | discriminate].
Qed.

Lemma fold_left_drop_zero_weight (k : nat) (trf : list (constituent f64)) :
  forall acc,
    fold_left fadd (bin_weights k (filter (fun c => fne0 (PT c)) trf)) acc =
    fold_left fadd (bin_weights k trf) acc.
Proof.
  unfold bin_weights. induction trf as [| c trf IH]; intros acc; [reflexivity |].
  cbn [filter]. destruct (fne0 (PT c)) eqn:Hw.
  - cbn [filter].
    destruct (ravel_index (ETA c) (PHI c) =? k)%nat; cbn [map fold_left];
      apply IH.
  - destruct (ravel_index (ETA c) (PHI c) =? k)%nat; cbn [map fold_left].
    + rewrite (fne0_false _ Hw), fadd_zero_r. apply IH.
    + apply IH.
Qed.

Lemma jet_image_nonzero_weights (trf : list (constituent f64)) :
  jet_image (filter (fun c => fne0 (PT c)) trf) = jet_image trf.
Proof.
  apply jet_image_ext. intros i j _ _. apply fold_left_drop_zero_weight.
Qed.

Lemma jet_image_zero_weight_insert (l1 zs l2 : list (constituent f64)) :
  Forall (fun c => PT c = Fin 0) zs ->
  jet_image (l1 ++ zs ++ l2) = jet_image (l1 ++ l2).
Proof.
  intros Hz.
  rewrite <- (jet_image_nonzero_weights (l1 ++ zs ++ l2)).
  rewrite <- (jet_image_nonzero_weights (l1 ++ l2)).
  rewrite !filter_app. do 2 f_equal.
  rewrite filter_all_false; [reflexivity |].
  intros c Hc. rewrite Forall_forall in Hz. rewrite (Hz c Hc). cbn.
  destruct (Req_dec_T 0 0); [reflexivity | contradiction].
Qed.

(** X6: particles of zero weight never change the image (exact
    arithmetic model): inserting any number of constituents with [pt = 0]
    anywhere in the list, at any coordinates, gives the same image. *)
Theorem jet_image_ignores_zero_weight (l1 zs l2 : list (constituent f64)) :
  Forall (fun c => PT c = Fin 0) zs ->
  jet_image (l1 ++ zs ++ l2) = jet_image (l1 ++ l2).
Proof. exact (jet_image_zero_weight_insert l1 zs l2). Qed.

Lemma jet_image_ignores_zero_weight_witness :
  jet_image ([finite_constituent (1, 0, 0)]
             ++ [finite_constituent (0, 2, 0); finite_constituent (0, 0, 0)]
             ++ [finite_constituent (/ 2, / 4, - / 4)]) =
  jet_image ([finite_constituent (1, 0, 0)]
             ++ [finite_constituent (/ 2, / 4, - / 4)]).
Proof.
  apply jet_image_ignores_zero_weight.
  repeat constructor.
Defined.

Lemma rel_constituents_split (j : jet) (n : nat) :
  (n <= n_constituents)%nat ->
  (forall i, (n <= i < n_constituents)%nat -> zero_slot j i) ->
  rel_constituents (get_df_rel_row j) =
  firstn n (rel_constituents (get_df_rel_row j)) ++
  repeat {| PT := Fin 0; ETA := Fin 0; PHI := Fin 0 |} (n_constituents - n).
Proof.
  intros Hn Hpad.
  rewrite <- (firstn_skipn n (rel_constituents (get_df_rel_row j))) at 1.
  f_equal. apply nth_error_ext. intros i.
  rewrite nth_error_skipn.
  destruct (Nat.lt_ge_cases (n + i) n_constituents) as [Hlt | Hge].
  - rewrite zero_slot_rel by (try apply Hpad; lia).
    symmetry. rewrite nth_error_repeat by lia. reflexivity.
  - rewrite (proj2 (nth_error_None _ _))
      by (rewrite get_df_rel_row_length; lia).
    symmetry. apply nth_error_None. rewrite repeat_length. lia.
Qed.

Lemma row_image_padding (j : jet) (n : nat) :
  (n <= n_constituents)%nat ->
  (forall i, (n <= i < n_constituents)%nat -> zero_slot j i) ->
  row_image j = jet_image (firstn n (rel_constituents (get_df_rel_row j))).
Proof.
  intros Hn Hpad. unfold row_image.
  rewrite (rel_constituents_split j n Hn Hpad) at 1.
  rewrite <- (app_nil_r (repeat _ _)).
  rewrite jet_image_zero_weight_insert.
  - now rewrite app_nil_r.
  - apply Forall_forall. intros c Hc. apply repeat_spec in Hc. now subst c.
Qed.

(** X9: zero padding is invisible in the image: when the slots from [n]
    on are zero-padded, the image of the row is the image of its first
    [n] relative triples alone. *)
Theorem row_image_ignores_padding (j : jet) (n : nat) :
  (n <= n_constituents)%nat ->
  (forall i, (n <= i < n_constituents)%nat -> zero_slot j i) ->
  row_image j = jet_image (firstn n (rel_constituents (get_df_rel_row j))).
Proof. exact (row_image_padding j n). Qed.

Lemma row_image_ignores_padding_witness :
  row_image (two_constituents (10, 3, 4, 0) (5, 1, 2, 3)) =
  jet_image
    (firstn 2 (rel_constituents
                 (get_df_rel_row (two_constituents (10, 3, 4, 0) (5, 1, 2, 3))))).
Proof.
  apply row_image_ignores_padding.
  - unfold n_constituents. lia.
  - intros i Hi. destruct i as [| [| i]]; [lia | lia | repeat split].
Defined.

(** X10: [get_img_array] raises on a frame without rows and otherwise
    returns one image per row, each of shape 40 x 40 x 1, whatever the
    rows hold. *)
Theorem get_img_array_shape (df : list jet_rel) :
  match get_img_array df with
  | None => df = []
  | Some imgs =>
      df <> [] /\ length imgs = length df /\ Forall (has_shape 40 40) imgs
  end.
Proof.
  destruct df as [| r df]; [reflexivity |].
  cbn [get_img_array]. split; [discriminate |]. split.
  - now rewrite length_map.
  - apply Forall_forall. intros img Himg.
    apply in_map_iff in Himg as [r' [<- _]]. apply jet_image_shape.
Qed.

Lemma pixel_at_map3 {A B : Type} (f : A -> B) (img : array3 A) (i j : nat) :
  pixel_at (map3 f img) i j = option_map f (pixel_at img i j).
Proof.
  unfold pixel_at, map3. rewrite nth_error_map.
  destruct (nth_error img i) as [row |]; [| reflexivity]. cbn [option_map bind].
  rewrite nth_error_map.
  destruct (nth_error row j) as [px |]; [| reflexivity]. cbn [option_map bind].
  now rewrite nth_error_map.
Qed.

Lemma fold_left_zero_weights (ws : list f64) :
  Forall (fun w => w = Fin 0) ws -> fold_left fadd ws (Fin 0) = Fin 0.
Proof.
  induction 1 as [| w ws Hw _ IH]; [reflexivity |].
  subst w. cbn [fold_left]. rewrite fadd_zero_r. exact IH.
Qed.




(** ** Dequantiser: order of the decoded values *)



(** ** Chunked driver: when it raises, how many rows, chunk size *)

(** X15: [preprocess] raises exactly when [n_examples] is 0, or
    [chunksize] is 0, or the table ends at or before the start of the last
    chunk (so that some chunk has no row); a table that is merely shorter
    than [n_examples] does not make it raise. *)
Theorem preprocess_raises_iff (table : list jet) (n_examples chunksize : nat) :
  preprocess table n_examples chunksize = None <->
  n_examples = 0%nat \/ chunksize = 0%nat \/
  (length table <= (n_chunks n_examples chunksize - 1) * chunksize)%nat.
Proof.
  split; [| apply preprocess_raises].
  intros Hnone.
  destruct (Nat.eq_dec n_examples 0) as [Hn | Hn]; [now left |].
  destruct (Nat.eq_dec chunksize 0) as [Hc | Hc]; [now right; left |].
  destruct (le_lt_dec (length table)
              ((n_chunks n_examples chunksize - 1) * chunksize)) as [Hl | Hl];
    [now right; right |].
  rewrite preprocess_produces in Hnone by lia. discriminate.
Qed.

Lemma preprocess_some_inv (table : list jet) (n_examples chunksize : nat)
  (x : list (array3 f64)) (y : list Z) :
  preprocess table n_examples chunksize = Some (x, y) ->
  x = map row_image (rows_read table n_examples chunksize) /\
  y = map is_signal_new (rows_read table n_examples chunksize).
Proof.
  intros Hp.
  destruct (Nat.eq_dec n_examples 0) as [Hn | Hn];
    [rewrite preprocess_raises in Hp by auto; discriminate |].
  destruct (Nat.eq_dec chunksize 0) as [Hc | Hc];
    [rewrite preprocess_raises in Hp by auto; discriminate |].
  destruct (le_lt_dec (length table)
              ((n_chunks n_examples chunksize - 1) * chunksize)) as [Hl | Hl];
    [rewrite preprocess_raises in Hp by auto; discriminate |].
  rewrite preprocess_produces in Hp by lia.
  now injection Hp as <- <-.
Qed.

(** X16: the number of rows returned is the table length capped at
    [ceil(n_examples / chunksize) * chunksize], not at [n_examples]: the
    last chunk is read in full, so more than [n_examples] rows come back
    when [chunksize] does not divide [n_examples], and fewer when the
    table is short. *)
Theorem preprocess_row_count (table : list jet) (n_examples chunksize : nat)
  (x : list (array3 f64)) (y : list Z) :
  preprocess table n_examples chunksize = Some (x, y) ->
  length x = Nat.min (n_chunks n_examples chunksize * chunksize) (length table) /\
  length y = Nat.min (n_chunks n_examples chunksize * chunksize) (length table).
Proof.
  intros Hp. destruct (preprocess_some_inv _ _ _ _ _ Hp) as [-> ->].
  unfold rows_read. now rewrite !length_map, length_firstn.
Qed.

Lemma preprocess_row_count_witness :
  preprocess three_jets 1 2 =
  Some (map row_image (firstn 2 three_jets), [1%Z; 0%Z]) /\
  length (map row_image (firstn 2 three_jets)) = 2%nat.
Proof.
  assert (Hp : preprocess three_jets 1 2 =
               Some (map row_image (firstn 2 three_jets), [1%Z; 0%Z])).
  { rewrite preprocess_produces; [reflexivity | lia | lia | cbn; lia]. }
  split; [exact Hp |].
  exact (proj1 (preprocess_row_count three_jets 1 2 _ _ Hp)).
Defined.

Lemma n_chunks_multiple (k chunksize : nat) :
  (0 < chunksize)%nat -> n_chunks (k * chunksize) chunksize = k.
Proof.
  intros Hc. unfold n_chunks.
  replace (k * chunksize + chunksize - 1)%nat
    with ((chunksize - 1) + k * chunksize)%nat by lia.
  rewrite Nat.div_add by lia. rewrite Nat.div_small by lia. reflexivity.
Qed.

(** X17: chunking is only a memory device: when [chunksize] divides
    [n_examples] and the table has at least [n_examples] rows, the result
    is that of a single read of the first [n_examples] rows, whatever the
    chunk size. *)
Theorem preprocess_chunksize_irrelevant (table : list jet) (k chunksize : nat) :
  (0 < k)%nat -> (0 < chunksize)%nat ->
  (k * chunksize <= length table)%nat ->
  preprocess table (k * chunksize) chunksize =
  Some (map row_image (firstn (k * chunksize) table),
        map is_signal_new (firstn (k * chunksize) table)) /\
  preprocess table (k * chunksize) chunksize =
  preprocess table (k * chunksize) (k * chunksize).
Proof.
  intros Hk Hc Hlen.
  assert (Hn : (0 < k * chunksize)%nat) by nia.
  assert (H1 : preprocess table (k * chunksize) chunksize =
               Some (map row_image (firstn (k * chunksize) table),
                     map is_signal_new (firstn (k * chunksize) table))).
  { rewrite preprocess_produces; try assumption.
    - unfold rows_read. now rewrite n_chunks_multiple.
    - rewrite n_chunks_multiple by assumption. nia. }
  split; [exact H1 |]. rewrite H1. symmetry.
  pose proof (n_chunks_multiple 1 (k * chunksize) Hn) as Hone.
  rewrite Nat.mul_1_l in Hone.
  rewrite preprocess_produces; try assumption.
  - unfold rows_read. rewrite Hone. now rewrite Nat.mul_1_l.
  - rewrite Hone. lia.
Qed.

Lemma preprocess_chunksize_irrelevant_witness :
  preprocess three_jets (2 * 1) 1 =
  Some (map row_image (firstn (2 * 1) three_jets),
        map is_signal_new (firstn (2 * 1) three_jets)) /\
  preprocess three_jets (2 * 1) 1 = preprocess three_jets (2 * 1) (2 * 1).
Proof.
  apply preprocess_chunksize_irrelevant; [lia | lia | cbn; lia].
Defined.


(** ** The top-level cells: training split, stored arrays *)

(** X18: the training split, computed by the notebook's top-level cells
    without chunks, is what [preprocess] returns for the same table with
    one chunk of [n_examples] rows (both raise on an empty table or
    [n_examples = 0]). *)
Theorem train_split_is_preprocess (table : list jet) (n_examples : nat) :
  train_split table n_examples = preprocess table n_examples n_examples.
Proof.
  unfold train_split, preprocess.
  destruct (Nat.eqb_spec n_examples 0) as [-> | Hn]; [reflexivity |].
  unfold py_range.
  replace ((n_examples + n_examples - 1) / n_examples)%nat with 1%nat.
  - cbn [seq map preprocess_loop Nat.mul]. unfold preprocess_chunk.
    cbn [Nat.add].
    destruct (get_img_array (get_df_rel (read_hdf table 0 n_examples)))
      as [x |]; [| reflexivity].
    cbn [bind fst snd np_concatenate concat]. now rewrite !app_nil_r.
  - symmetry. pose proof (n_chunks_multiple 1 n_examples ltac:(lia)) as H1.
    unfold n_chunks in H1. now rewrite Nat.mul_1_l in H1.
Qed.

Lemma has_shape_map3 {A B : Type} (f : A -> B) (n m : nat) (img : array3 A) :
  has_shape n m img -> has_shape n m (map3 f img).
Proof.
  intros [Hn Hrows]. unfold map3. split; [now rewrite length_map |].
  apply Forall_map. apply Forall_impl with (2 := Hrows).
  intros row [Hm Hpx]. split; [now rewrite length_map |].
  apply Forall_map. apply Forall_impl with (2 := Hpx).
  intros px Hone. now rewrite length_map.
Qed.

Lemma transform_img_codes (img : array3 f64) : codes_in_uint8 (transform_img img).
Proof.
  unfold codes_in_uint8, transform_img, map3.
  apply Forall_map, Forall_forall. intros row _.
  apply Forall_map, Forall_forall. intros px _.
  apply Forall_map, Forall_forall. intros v _.
  apply transform_range_bound.
Qed.

(** X19: what is stored for a split returned by [preprocess]: as many
    quantised images as labels, each image of shape 40 x 40 x 1 with all
    elements in [0, 255], and the labels untouched. *)
Theorem stored_split_format (table : list jet) (n_examples chunksize : nat)
  (x : list (array3 f64)) (y : list Z) :
  preprocess table n_examples chunksize = Some (x, y) ->
  length (fst (stored_split (x, y))) = length (snd (stored_split (x, y))) /\
  Forall (has_shape 40 40) (fst (stored_split (x, y))) /\
  Forall codes_in_uint8 (fst (stored_split (x, y))) /\
  snd (stored_split (x, y)) = map is_signal_new (rows_read table n_examples chunksize).
Proof.
  intros Hp. destruct (preprocess_some_inv _ _ _ _ _ Hp) as [-> ->].
  unfold stored_split. cbn [fst snd]. split; [now rewrite !length_map |].
  split; [| split; [| reflexivity]].
  - apply Forall_map, Forall_map, Forall_forall. intros r _.
    exact (has_shape_map3 transform 40 40 (row_image r)
             (jet_image_shape (rel_constituents (get_df_rel_row r)))).
  - apply Forall_map, Forall_forall. intros img _. apply transform_img_codes.
Qed.

Lemma stored_split_format_witness :
  length (fst (stored_split (map row_image three_jets, [1%Z; 0%Z; 1%Z]))) = 3%nat /\
  Forall codes_in_uint8 (fst (stored_split (map row_image three_jets, [1%Z; 0%Z; 1%Z]))).
Proof.
  assert (Hp : preprocess three_jets 3 2 =
               Some (map row_image three_jets, [1%Z; 0%Z; 1%Z])).
  { rewrite preprocess_produces; [reflexivity | lia | lia | cbn; lia]. }
  destruct (stored_split_format three_jets 3 2 _ _ Hp) as [Hl [_ [Hc _]]].
  split; [exact Hl | exact Hc].
Defined.


(** ** Efficiency lookup *)

Section EfficiencyLookupFacts.
Context {T : Type} `{Scalar T} {A : Type}.

Lemma last_slice_nonempty {B : Type} (l : list B) :
  l <> [] ->
  exists b, last_slice l = [b] /\ nth_error l (length l - 1) = Some b.
Proof.
  unfold last_slice. induction l as [| a l IH]; [contradiction |].
  intros _. destruct l as [| a' l'].
  - exists a. split; reflexivity.
  - destruct IH as [b [Hs Hn]]; [discriminate |].
    exists b. cbn [length] in *.
    replace (S (S (length l')) - 1)%nat with (S (S (length l') - 1)) by lia.
    split; [exact Hs | exact Hn].
Qed.

(** Padding both ends is clamping the index. *)
Lemma pad_ends_nth_error {B : Type} (l : list B) (x : nat) :
  l <> [] -> (x <= length l + 1)%nat ->
  nth_error (pad_ends l) x = nth_error l (clamp_bin (length l) x).
Proof.
  intros Hne Hx. destruct (last_slice_nonempty l Hne) as [b [Hs Hb]].
  unfold pad_ends, first_slice. rewrite Hs.
  destruct l as [| a l]; [contradiction |].
  cbn [app firstn]. unfold clamp_bin. destruct x as [| x]; [reflexivity |].
  cbn [nth_error]. replace (S x - 1)%nat with x by lia.
  change (a :: l ++ [b]) with ((a :: l) ++ [b]).
  destruct (Nat.lt_ge_cases x (length (a :: l))) as [Hlt | Hge].
  - rewrite nth_error_app1 by assumption. f_equal. lia.
  - assert (x = length (a :: l)) by lia. subst x.
    rewrite nth_error_app2, Nat.sub_diag by lia. cbn [nth_error].
    rewrite Nat.min_r by lia. now rewrite Hb.
Qed.

Lemma index2_pad_hist (h : list (list A)) (n m x y : nat) :
  (0 < n)%nat -> (0 < m)%nat ->
  length h = n -> Forall (fun row => length row = m) h ->
  (x <= n + 1)%nat -> (y <= m + 1)%nat ->
  exists e,
    index2 (pad_hist h) x y = Some e /\
    index2 h (clamp_bin n x) (clamp_bin m y) = Some e.
Proof.
  intros Hn Hm Hlen Hrows Hx Hy.
  assert (Hne : h <> []) by (intros ->; cbn in Hlen; lia).
  unfold index2, pad_hist.
  rewrite nth_error_map, pad_ends_nth_error, Hlen by (rewrite ?Hlen; assumption).
  assert (Hc : (clamp_bin n x < length h)%nat) by (unfold clamp_bin; lia).
  destruct (nth_error h (clamp_bin n x)) as [row |] eqn:Hrow;
    [| apply nth_error_None in Hrow; lia].
  cbn [option_map bind].
  assert (Hrl : length row = m).
  { rewrite Forall_forall in Hrows. apply Hrows.
    eapply nth_error_In. exact Hrow. }
  assert (Hrne : row <> []) by (intros ->; cbn in Hrl; lia).
  rewrite pad_ends_nth_error, Hrl by (rewrite ?Hrl; assumption).
  assert (Hcy : (clamp_bin m y < length row)%nat) by (unfold clamp_bin; lia).
  destruct (nth_error row (clamp_bin m y)) as [e |] eqn:He;
    [| apply nth_error_None in He; lia].
  exists e. split; reflexivity.
Qed.

Lemma digitize_EX_le (a : T) : (searchsorted_right EX a <= 9 + 1)%nat.
Proof.
  pose proof (searchsorted_right_le (@EX T _) a) as Hle.
  unfold EX in Hle at 2. now rewrite linspace_length in Hle.
Qed.

Lemma digitize_EY_le (p : T) : (searchsorted_right EY p <= 4 + 1)%nat.
Proof.
  pose proof (searchsorted_right_le (@EY T _) p) as Hle.
  unfold EY in Hle at 2. now rewrite linspace_length in Hle.
Qed.

Lemma pred_proba_from_hist_lookup (pt abseta : list T) (eff_hist : list (list A)) :
  (length abseta <= length pt)%nat ->
  length eff_hist = 9%nat ->
  Forall (fun row => length row = 4%nat) eff_hist ->
  exists effs,
    pred_proba_from_hist pt abseta eff_hist = Some (map Some effs) /\
    length effs = length abseta /\
    Forall2 (fun ap e =>
               index2 eff_hist
                 (clamp_bin 9 (searchsorted_right EX (fst ap)))
                 (clamp_bin 4 (searchsorted_right EY (snd ap))) = Some e)
            (combine abseta pt) effs.
Proof.
  intros Hlen Hrows Hcols. unfold pred_proba_from_hist, digitize.
  rewrite length_map.
  assert (Hfill : exists effs,
             fill_effs (pad_hist eff_hist)
               (combine (map (searchsorted_right EX) abseta)
                        (map (searchsorted_right EY) pt)) = Some effs /\
             length effs = length abseta /\
             Forall2 (fun ap e =>
                        index2 eff_hist
                          (clamp_bin 9 (searchsorted_right EX (fst ap)))
                          (clamp_bin 4 (searchsorted_right EY (snd ap))) = Some e)
                     (combine abseta pt) effs).
  { revert pt Hlen.
    induction abseta as [| a abseta IH]; intros pt Hlen.
    - exists []. repeat split; constructor.
    - destruct pt as [| p pt]; [cbn in Hlen; lia |].
      cbn [length] in Hlen.
      destruct (IH pt ltac:(lia)) as [effs [Hf [Hl Hall]]].
      destruct (index2_pad_hist eff_hist 9 4
                  (searchsorted_right EX a) (searchsorted_right EY p))
        as [e [He Hc]];
        try assumption; try lia;
        [apply digitize_EX_le | apply digitize_EY_le |].
      exists (e :: effs). cbn [map combine fill_effs].
      rewrite He. cbn [bind]. rewrite Hf. cbn [bind].
      split; [reflexivity |]. split; [cbn; lia |].
      constructor; assumption. }
  destruct Hfill as [effs [Hf [Hl Hall]]].
  exists effs. rewrite Hf. cbn [bind].
  rewrite Hl, Nat.sub_diag. cbn [repeat]. rewrite app_nil_r.
  repeat split; assumption.
Qed.

(** X20: with a 9 x 4 efficiency table (one cell per bin of [EX] and
    [EY]) and at least as many [pt] as [abseta] values, the lookup never
    raises and leaves no entry unset: entry [i] is the table cell of the
    bin of value [i], and values below the first or from the last edge on
    (NaN included) get the nearest edge bin.  This holds for every element
    type, binary64 included. *)
Theorem pred_proba_from_hist_clamps (pt abseta : list T) (eff_hist : list (list A)) :
  (length abseta <= length pt)%nat ->
  length eff_hist = 9%nat ->
  Forall (fun row => length row = 4%nat) eff_hist ->
  exists effs,
    pred_proba_from_hist pt abseta eff_hist = Some (map Some effs) /\
    length effs = length abseta /\
    Forall2 (fun ap e =>
               index2 eff_hist
                 (clamp_bin 9 (searchsorted_right EX (fst ap)))
                 (clamp_bin 4 (searchsorted_right EY (snd ap))) = Some e)
            (combine abseta pt) effs.
Proof. exact (pred_proba_from_hist_lookup pt abseta eff_hist). Qed.
End EfficiencyLookupFacts.

Lemma pred_proba_from_hist_clamps_witness :
  exists effs,
    pred_proba_from_hist [150%float; 1000%float] [0.5%float; 7%float] index_table
      = Some (map Some effs) /\
    length effs = 2%nat /\
    Forall2 (fun ap e =>
               index2 index_table
                 (clamp_bin 9 (searchsorted_right EX (fst ap)))
                 (clamp_bin 4 (searchsorted_right EY (snd ap))) = Some e)
            (combine [0.5%float; 7%float] [150%float; 1000%float]) effs.
Proof.
  apply (pred_proba_from_hist_clamps [150%float; 1000%float] [0.5%float; 7%float]
           index_table).
  - cbn. lia.
  - reflexivity.
  - unfold index_table. repeat constructor.
Defined.

(** On binary64: |eta| = 0.5, pt = 150 is bin (1, 1); |eta| = 7,
    pt = 1000 overflows on both axes and gets the last bin (8, 3). *)
Example pred_proba_from_hist_binary64 :
  pred_proba_from_hist [150%float; 1000%float] [0.5%float; 7%float] index_table
  = Some [Some 11%nat; Some 83%nat].
Proof. vm_compute. reflexivity. Qed.

(** ** Binning on binary64: which bin *)

Section Binary64Binning.
Import SpecFloat FloatOps FloatAxioms.

Lemma increasing_tail (a : float) (l : list float) :
  increasing (a :: l) = true -> increasing l = true.
Proof.
  destruct l as [| b l]; [reflexivity |].
  cbn [increasing]. rewrite andb_true_iff. tauto.
Qed.

Lemma increasing_head_lt (l : list float) (a : float) :
  increasing (a :: l) = true ->
  forall e, In e l -> is_nan e = false /\ B2X a < B2X e.
Proof.
  revert a. induction l as [| b l IH]; intros a Hinc e He; [contradiction |].
  cbn [increasing] in Hinc. apply andb_true_iff in Hinc.
  destruct Hinc as [Hab Hrest]. apply ltb_order in Hab.
  destruct Hab as (_ & Hnb & Hab).
  destruct He as [<- | He]; [tauto |].
  destruct (IH b Hrest e He) as [Hne Hbe]. split; [exact Hne | lra].
Qed.

Lemma increasing_head_defined (a b : float) (l : list float) :
  increasing (a :: b :: l) = true -> is_nan a = false.
Proof.
  cbn [increasing]. rewrite andb_true_iff, ltb_order. tauto.
Qed.

(** [np.searchsorted(a, v, side='right')] on increasing binary64 edges:
    the count is [k + 1] when [a[k] <= v < a[k + 1]] (no upper condition
    for the last edge). *)
Lemma searchsorted_right_increasing (edges : list float) (v : float) (k : nat) :
  increasing edges = true ->
  (k < length edges)%nat ->
  (nth k edges 0 <=? v)%float = true ->
  ((S k < length edges)%nat -> (v <? nth (S k) edges 0)%float = true) ->
  searchsorted_right edges v = S k.
Proof.
  unfold searchsorted_right. cbn [s_le binary64_scalar].
  revert k. induction edges as [| a l IH]; intros k Hinc Hk Hlo Hhi;
    [cbn in Hk; lia |].
  pose proof Hlo as Hlo'. apply leb_order in Hlo'.
  destruct Hlo' as (_ & Hnv & Hlo').
  rewrite Hnv in *.
  destruct k as [| k].
  - cbn [nth] in Hlo, Hlo'. cbn [filter]. rewrite Hlo. cbn [orb length].
    f_equal. rewrite filter_all_false; [reflexivity |].
    intros e He. rewrite orb_false_r.
    destruct (e <=? v)%float eqn:Hc; [| reflexivity].
    apply leb_order in Hc. destruct Hc as (_ & _ & Hc).
    destruct l as [| b l]; [contradiction |].
    specialize (Hhi ltac:(cbn; lia)). cbn [nth] in Hhi.
    apply ltb_order in Hhi. destruct Hhi as (_ & _ & Hhi).
    destruct He as [<- | He]; [lra |].
    apply increasing_tail in Hinc.
    destruct (increasing_head_lt l b Hinc e He) as [_ Hbe]. lra.
  - cbn [nth length] in *.
    assert (Hin : In (nth k l 0%float) l) by (apply nth_In; lia).
    destruct (increasing_head_lt l a Hinc _ Hin) as [_ Hak].
    assert (Hna : is_nan a = false).
    { destruct l as [| b l]; [cbn in Hk; lia |].
      exact (increasing_head_defined a b l Hinc). }
    assert (Ha : (a <=? v)%float = true)
      by (rewrite leb_order; repeat split; auto; lra).
    cbn [filter]. rewrite Ha. cbn [orb length]. f_equal.
    apply IH.
    + exact (increasing_tail a l Hinc).
    + lia.
    + exact Hlo.
    + intros Hlt. apply Hhi. lia.
Qed.

Lemma binary64_edges_increasing : increasing (@histogram_edges float _) = true.
Proof. vm_compute. reflexivity. Qed.

Lemma binary64_bin_location (v : float) (i : nat) :
  (i < 40)%nat ->
  ((nth i histogram_edges 0 <=? v)%float = true /\
   (v <? nth (S i) histogram_edges 0)%float = true) \/
  (i = 39%nat /\ (v =? 1)%float = true) ->
  bin_index histogram_edges v = S i.
Proof.
  intros Hi Hv. unfold bin_index. rewrite binary64_edges_last.
  cbn [s_eq binary64_scalar].
  assert (Hlen : length (@histogram_edges float _) = 41%nat)
    by apply linspace_length.
  destruct Hv as [[Hlo Hhi] | [-> Hone]].
  - rewrite (searchsorted_right_increasing _ v i binary64_edges_increasing);
      [| lia | exact Hlo | intros _; exact Hhi].
    assert (Hin : In (nth (S i) (@histogram_edges float _) 0%float)
                     (@histogram_edges float _)) by (apply nth_In; lia).
    destruct (binary64_edge_position _ Hin) as [_ [_ Hle1]].
    apply ltb_order in Hhi. destruct Hhi as (_ & _ & Hhi).
    destruct (v =? 1)%float eqn:Heq; [| reflexivity].
    apply eqb_order in Heq. rewrite B2X_one in Heq. lra.
  - rewrite Hone.
    rewrite (searchsorted_right_increasing _ v 40 binary64_edges_increasing);
      [reflexivity | lia | | intros Hlt; lia].
    apply eqb_order in Hone. rewrite B2X_one in Hone.
    destruct Hone as (Hnv & _ & Hv).
    rewrite leb_order. change (nth 40 (@histogram_edges float _) 0%float)
      with 1%float. rewrite B2X_one. repeat split; auto. lra.
Qed.

(** X5: on binary64 the bins are half-open to the right, the last one
    closed: a coordinate [v] with [edges[i] <= v < edges[i+1]], [i < 40],
    for the edges that [np.linspace] computes, gets bin number [i + 1]
    (core bin [i] behind the outlier bin), and [v == 1.0] is counted in
    the last core bin. *)
Theorem binary64_bin_of_value (v : float) (i : nat) :
  (i < 40)%nat ->
  ((nth i histogram_edges 0 <=? v)%float = true /\
   (v <? nth (S i) histogram_edges 0)%float = true) \/
  (i = 39%nat /\ (v =? 1)%float = true) ->
  bin_index histogram_edges v = S i.
Proof. exact (binary64_bin_location v i). Qed.

End Binary64Binning.

(** ** Efficiency lookup on binary64 *)

Lemma binary64_EX_increasing : increasing (@EX float _) = true.
Proof. vm_compute. reflexivity. Qed.

Lemma binary64_EY_increasing : increasing (@EY float _) = true.
Proof. vm_compute. reflexivity. Qed.

(** X21: which cell is looked up on binary64: with the edges that
    [np.linspace] computes, [EX[i] <= |eta| < EX[i+1]] and
    [EY[j] <= pt < EY[j+1]] select the table cell [(i, j)]. *)
Theorem pred_proba_from_hist_bin_binary64 {A : Type} (a p : float) (i j : nat)
  (eff_hist : list (list A)) (e : A) :
  length eff_hist = 9%nat ->
  Forall (fun row => length row = 4%nat) eff_hist ->
  (i < 9)%nat -> (j < 4)%nat ->
  (nth i EX 0 <=? a)%float = true -> (a <? nth (S i) EX 0)%float = true ->
  (nth j EY 0 <=? p)%float = true -> (p <? nth (S j) EY 0)%float = true ->
  index2 eff_hist i j = Some e ->
  pred_proba_from_hist [p] [a] eff_hist = Some [Some e].
Proof.
  intros Hrows Hcols Hi Hj Ha1 Ha2 Hp1 Hp2 He.
  destruct (pred_proba_from_hist_lookup [p] [a] eff_hist)
    as [effs [Hres [Hlen Hall]]]; try assumption; [cbn; lia |].
  rewrite Hres. cbn [combine] in Hall.
  inversion Hall as [| ap e' l l' Hhead Htail]; subst.
  inversion Htail; subst. cbn [fst snd] in Hhead.
  assert (HlenX : length (@EX float _) = 10%nat) by apply linspace_length.
  assert (HlenY : length (@EY float _) = 5%nat) by apply linspace_length.
  rewrite (searchsorted_right_increasing _ a i binary64_EX_increasing)
    in Hhead by (try lia; try assumption; intros _; assumption).
  rewrite (searchsorted_right_increasing _ p j binary64_EY_increasing)
    in Hhead by (try lia; try assumption; intros _; assumption).
  unfold clamp_bin in Hhead.
  replace (Nat.min (S i - 1) (9 - 1)) with i in Hhead by lia.
  replace (Nat.min (S j - 1) (4 - 1)) with j in Hhead by lia.
  rewrite He in Hhead. injection Hhead as <-. reflexivity.
Qed.

(** ** Quantiser on binary64: the code as an integer part *)

Lemma binary64_transform_value (np_log : float -> float) (x : float) :
  (x =? 0)%float = false ->
  Binary64.transform np_log x =
    wrap_uint8 (Ztrunc (B2R (Binary64.map_1_255 np_log x default_range))) /\
  ((0 <=? Binary64.map_1_255 np_log x default_range)%float = true ->
   (Binary64.map_1_255 np_log x default_range <? 256)%float = true ->
   IZR (Binary64.transform np_log x)
     <= B2R (Binary64.map_1_255 np_log x default_range)
     < IZR (Binary64.transform np_log x) + 1).
Proof.
  intros Hx. rewrite binary64_transform_nonzero by assumption.
  set (v := Binary64.map_1_255 np_log x default_range).
  split.
  - unfold Binary64.astype_uint8. now rewrite float_trunc_exact.
  - intros Hlo Hhi.
    pose proof Hlo as Hlo'. rewrite leb_order in Hlo'.
    change (B2X 0%float) with 0 in Hlo'. destruct Hlo' as (_ & Hn & Hlo').
    assert (H1 : (-1 <? v)%float = true)
      by (rewrite ltb_order, B2X_minus_one; repeat split; auto; lra).
    destruct (astype_uint8_window v H1 Hhi) as (-> & Hf & Hw & _).
    rewrite Hf in Hlo'. rewrite Ztrunc_nonneg by exact Hlo'.
    apply Zfloor_bound.
Qed.

(** X12: nothing is clamped: the code of a nonzero input is the integer
    part of the binary64 value [map_1_255], reduced modulo 256; when
    [0 <= map_1_255 < 256] it is the integer part itself. *)
Theorem transform_integer_part (np_log : float -> float) (x : float) :
  (x =? 0)%float = false ->
  Binary64.transform np_log x =
    wrap_uint8 (Ztrunc (B2R (Binary64.map_1_255 np_log x default_range))) /\
  ((0 <=? Binary64.map_1_255 np_log x default_range)%float = true ->
   (Binary64.map_1_255 np_log x default_range <? 256)%float = true ->
   IZR (Binary64.transform np_log x)
     <= B2R (Binary64.map_1_255 np_log x default_range)
     < IZR (Binary64.transform np_log x) + 1).
Proof. exact (binary64_transform_value np_log x). Qed.

(** ** Coordinate transform on binary64: the frame *)

Lemma binary64_fillna0_not_nan (x : float) :
  PrimFloat.is_nan (Binary64.fillna0 x) = false.
Proof.
  unfold Binary64.fillna0. destruct (PrimFloat.is_nan x) eqn:Hx;
    [reflexivity | exact Hx].
Qed.

(** X4: on binary64, for every [np.arcsinh] and [np.arcsin],
    [get_df_rel] keeps the rows and their labels, gives every row 200
    triples, and leaves no NaN in them. *)
Theorem binary64_get_df_rel_frame (np_arcsinh np_arcsin : float -> float)
  (df : list Binary64.jet) :
  map Binary64.rel_is_signal_new
      (Binary64.get_df_rel np_arcsinh np_arcsin df)
    = map Binary64.is_signal_new df /\
  Forall (fun r =>
            length (Binary64.rel_constituents r) = 200%nat /\
            Forall (fun c =>
                      PrimFloat.is_nan (PT c) = false /\
                      PrimFloat.is_nan (ETA c) = false /\
                      PrimFloat.is_nan (PHI c) = false)
                   (Binary64.rel_constituents r))
         (Binary64.get_df_rel np_arcsinh np_arcsin df).
Proof.
  unfold Binary64.get_df_rel. split.
  - rewrite map_map. reflexivity.
  - apply Forall_map, Forall_forall. intros j _.
    unfold Binary64.get_df_rel_row. cbn [Binary64.rel_constituents]. split.
    + now rewrite length_map, length_seq.
    + apply Forall_map, Forall_forall. intros i _. cbn [PT ETA PHI].
      now rewrite !binary64_fillna0_not_nan.
Qed.

(** ** End to end on binary64: a jet with a single particle *)

Section Binary64SingleParticle.
Import SpecFloat FloatOps FloatAxioms.

(** Zero divided by a finite nonzero number is a zero. *)
Lemma zero_over_regular (y : float) :
  Binary64.regular y = true ->
  zero_weight (Binary64.fillna0 (0 / y)%float).
Proof.
  rewrite regular_SF. intros Hy.
  destruct (Prim2SF y) as [s | s | | s m e] eqn:Hsf; try discriminate.
  assert (Hq : Prim2SF (0 / y)%float = S754_zero s).
  { rewrite div_spec, Hsf. reflexivity. }
  unfold Binary64.fillna0. rewrite is_nan_SF, Hq. cbn [SFnan].
  exists s. exact Hq.
Qed.

(** Adding a zero changes neither [+0.0] nor [1.0]. *)
Lemma add_zero_weight (acc w : float) :
  acc = 0%float \/ acc = 1%float -> zero_weight w -> (acc + w)%float = acc.
Proof.
  intros Hacc [s Hw]. apply Prim2SF_inj. rewrite add_spec, Hw.
  destruct Hacc as [-> | ->].
  - change (Prim2SF 0%float) with (S754_zero false). destruct s; reflexivity.
  - reflexivity.
Qed.

Lemma fold_left_zero_weights_binary64 (ws : list float) (acc : float) :
  acc = 0%float \/ acc = 1%float -> Forall zero_weight ws ->
  fold_left PrimFloat.add ws acc = acc.
Proof.
  intros Hacc Hws. induction Hws as [| w ws Hw _ IH]; [reflexivity |].
  cbn [fold_left]. rewrite (add_zero_weight acc w Hacc Hw). exact IH.
Qed.

Lemma bin_weights_zero (k : nat) (l : list (constituent float)) :
  Forall (fun c => zero_weight (PT c)) l ->
  Forall zero_weight (bin_weights k l).
Proof.
  intros Hl. unfold bin_weights. induction Hl as [| c l Hc _ IH]; [constructor |].
  cbn [filter]. destruct (ravel_index (ETA c) (PHI c) =? k)%nat;
    [constructor; assumption | exact IH].
Qed.

(** The row of a jet whose leading constituent has a finite nonzero
    transverse momentum and whose other slots have none: the leading
    triple is (1, 0, 0) and every other weight is a zero. *)
Lemma single_particle_row (np_arcsinh np_arcsin : float -> float)
  (j : Binary64.jet) :
  Binary64.regular (Binary64.abs_PT j 0) = true ->
  (forall s, (1 <= s < n_constituents)%nat ->
     Binary64.PX j s = 0%float /\ Binary64.PY j s = 0%float) ->
  exists rest,
    Binary64.rel_constituents
      (Binary64.get_df_rel_row np_arcsinh np_arcsin j) =
    {| PT := 1%float; ETA := 0%float; PHI := 0%float |} :: rest /\
    Forall (fun c => zero_weight (PT c)) rest.
Proof.
  intros Hreg Hpad.
  pose proof (leading_slot_binary64 np_arcsinh np_arcsin j) as Hlead.
  rewrite Hreg in Hlead.
  unfold Binary64.get_df_rel_row in *. cbn [Binary64.rel_constituents] in *.
  change (seq 0 n_constituents) with (0%nat :: seq 1 199) in *.
  cbn [map nth_error] in Hlead. injection Hlead as Hpt Heta Hphi.
  cbn [map]. rewrite Hpt, Heta, Hphi. eexists. split; [reflexivity |].
  apply Forall_map, Forall_forall. intros s Hs. apply in_seq in Hs.
  cbn [PT]. unfold Binary64.abs_PT at 1.
  destruct (Hpad s ltac:(unfold n_constituents; lia)) as [-> ->].
  change (PrimFloat.sqrt (0 * 0 + 0 * 0)%float) with 0%float.
  now apply zero_over_regular.
Qed.

Lemma single_particle_cells (np_arcsinh np_arcsin np_log : float -> float)
  (j : Binary64.jet) (i k : nat) :
  Binary64.regular (Binary64.abs_PT j 0) = true ->
  (forall s, (1 <= s < n_constituents)%nat ->
     Binary64.PX j s = 0%float /\ Binary64.PY j s = 0%float) ->
  np_log 1%float = 0%float ->
  (i < 40)%nat -> (k < 40)%nat ->
  pixel_at (Binary64.row_image np_arcsinh np_arcsin j) i k =
    Some (if ((i =? 20) && (k =? 20))%nat then 1%float else 0%float) /\
  pixel_at (Binary64.transform_img np_log
              (Binary64.row_image np_arcsinh np_arcsin j)) i k =
    Some (if ((i =? 20) && (k =? 20))%nat then 171%Z else 0%Z).
Proof.
  intros Hreg Hpad Hlog Hi Hk.
  destruct (single_particle_row np_arcsinh np_arcsin j Hreg Hpad)
    as [rest [Hrow Hrest]].
  assert (Hpix : pixel_at (Binary64.row_image np_arcsinh np_arcsin j) i k =
                 Some (if ((i =? 20) && (k =? 20))%nat
                       then 1%float else 0%float)).
  { unfold Binary64.row_image. rewrite Hrow, pixel_at_jet_image by assumption.
    f_equal. unfold bin_weights at 1. cbn [filter ETA PHI].
    rewrite binary64_ravel_centre.
    fold (bin_weights (core_cell_index i k) rest).
    pose proof (bin_weights_zero (core_cell_index i k) rest Hrest) as Hz.
    cbn [s_add s_of_Z binary64_scalar float_of_Z].
    destruct (Nat.eqb_spec i 20) as [-> | Hi20];
      [destruct (Nat.eqb_spec k 20) as [-> | Hk20] |]; cbn [andb].
    - change (903 =? core_cell_index 20 20)%nat with true.
      cbn [map fold_left PT].
      change (PrimFloat.zero + 1)%float with 1%float.
      apply fold_left_zero_weights_binary64; auto.
    - replace (903 =? core_cell_index 20 k)%nat with false
        by (symmetry; apply Nat.eqb_neq; unfold core_cell_index, nbin; lia).
      apply fold_left_zero_weights_binary64; auto.
    - replace (903 =? core_cell_index i k)%nat with false
        by (symmetry; apply Nat.eqb_neq; unfold core_cell_index, nbin; lia).
      apply fold_left_zero_weights_binary64; auto. }
  split; [exact Hpix |].
  unfold Binary64.transform_img. rewrite pixel_at_map3, Hpix.
  cbn [option_map]. f_equal.
  destruct ((i =? 20) && (k =? 20))%nat.
  - unfold Binary64.transform, Binary64.transform_range, Binary64.map_1_255.
    rewrite Hlog. reflexivity.
  - reflexivity.
Qed.

(** X22: end to end on binary64, for every [np.arcsinh] and [np.arcsin]
    and every [np.log] with [np.log(1.0) = 0.0]: a jet whose leading
    constituent has a finite nonzero computed [PT_0] and whose other
    slots have [px = py = 0] gives the image with 1.0 in cell (20, 20),
    whose lower corner is the origin, and 0.0 elsewhere; it is stored as
    code 171 in that cell and code 0 in every other cell. *)
Theorem single_particle_image (np_arcsinh np_arcsin np_log : float -> float)
  (j : Binary64.jet) (i k : nat) :
  Binary64.regular (Binary64.abs_PT j 0) = true ->
  (forall s, (1 <= s < n_constituents)%nat ->
     Binary64.PX j s = 0%float /\ Binary64.PY j s = 0%float) ->
  np_log 1%float = 0%float ->
  (i < 40)%nat -> (k < 40)%nat ->
  pixel_at (Binary64.row_image np_arcsinh np_arcsin j) i k =
    Some (if ((i =? 20) && (k =? 20))%nat then 1%float else 0%float) /\
  pixel_at (Binary64.transform_img np_log
              (Binary64.row_image np_arcsinh np_arcsin j)) i k =
    Some (if ((i =? 20) && (k =? 20))%nat then 171%Z else 0%Z).
Proof. exact (single_particle_cells np_arcsinh np_arcsin np_log j i k). Qed.
End Binary64SingleParticle.

Lemma single_particle_image_witness :
  pixel_at (Binary64.transform_img log_table
              (Binary64.row_image (fun x => x) (fun x => x)
                 (Binary64.leading_only 3 4 0))) 20 20 = Some 171%Z.
Proof.
  refine (proj2 (single_particle_image (fun x => x) (fun x => x) log_table
                   (Binary64.leading_only 3 4 0) 20 20 _ _ _ _ _));
    try reflexivity; try lia.
  intros s Hs. destruct s as [| s]; [lia |]. split; reflexivity.
Defined.
